(** * ReadoutCard: SCA engine, card enumeration and CRU generator bits

    A shallow embedding of
    - [src/CommandLineUtilities/AliceLowlevelFrontend/Sca.cxx] (module [Alf]),
    - [src/RocPciDevice.cxx] (module [Roc]),
    - the generator-bit setters declared in [Cru/CruBar.h] (module [Cru]),
    then the vocabulary the properties are stated in ([AlfSpec], [RocSpec]),
    the filtering scans of RocPciDevice.cxx ([RocFind]) and the [run] methods
    of ProgramRegisterReadRange.cxx and ProgramRegisterWrite.cxx
    ([Programs]),
    then the properties themselves ([AlfFacts], [RocFacts], [CruFacts],
    [RocFindFacts], [AlfMoreFacts], [ProgramFacts]).

    Conventions: a [uint32_t] is a [Z]; an [int] loop counter that only counts
    up to a small constant is the fuel of a [Fixpoint]; a C++ exception is the
    [Thrown] outcome of a computation, and the device behind a
    [RegisterReadWriteInterface&] is the state threaded through it. *)

From Stdlib Require Import ZArith List String Ascii Bool Lia DecimalString Sorted.
From Stdlib Require HexadecimalString.
Import ListNotations.
Open Scope string_scope.
Open Scope list_scope.
Open Scope Z_scope.

(** ** Outcomes: normal return or a thrown exception *)

Inductive Outcome (E A : Type) : Type :=
| Returned (a : A)
| Thrown (e : E).
Arguments Returned {E A} a.
Arguments Thrown {E A} e.

(** [CardType::type], with the values the sources name. *)
Inductive CardType : Type := Unknown | Crorc | Cru.

(** ** Utilities/Util.h *)

Module Utilities.

(** Modelled from the spec: [Utilities::getBit] lives in Utilities/Util.h,
    which is not among the sources.  The spec reads the low byte as "an
    error-flag bitfield (bits 0-6, each independently settable)", and
    [Sca::checkError] compares the result with 1, so [getBit x index] is bit
    [index] of [x] as 0 or 1. *)
Definition getBit (x : Z) (index : Z) : Z := Z.land (Z.shiftr x index) 1.

End Utilities.

(** ** The register interface and a recording double *)

(** One access to the register window. *)
Inductive BarEvent : Type :=
| EvRead (index : Z) (value : Z)
| EvWrite (index : Z) (value : Z).

(** [RegisterReadWriteInterface]: the two virtual methods the SCA engine calls
    on [bar2].  The device is a value; a read yields the word and the device
    afterwards, a write yields the device afterwards. *)
Class RegisterReadWriteInterface (B : Type) : Type := {
  readRegister : B -> Z -> Z * B;
  writeRegister : B -> Z -> Z -> B
}.

(** A device that forwards every access to [inner] and appends it to [tape]. *)
Record Recorder (B : Type) : Type := mkRecorder {
  inner : B;
  tape : list BarEvent
}.
Arguments mkRecorder {B} inner tape.
Arguments inner {B} r.
Arguments tape {B} r.

#[export] Instance Recorder_bar {B} `{RegisterReadWriteInterface B}
  : RegisterReadWriteInterface (Recorder B) := {
  readRegister r index :=
    let (v, b') := readRegister (inner r) index in
    (v, mkRecorder b' (tape r ++ [EvRead index v]));
  writeRegister r index value :=
    mkRecorder (writeRegister (inner r) index value)
               (tape r ++ [EvWrite index value])
}.

(** ** Sca.cxx *)

Module Alf.

Module Registers.
Definition WRITE_DATA : Z := 0x1e0 / 4.
Definition WRITE_COMMAND : Z := 0x1e4 / 4.
Definition CONTROL : Z := 0x1e8 / 4.
Definition BUSY : Z := 0x1ec / 4.
Definition READ_DATA : Z := 0x1f0 / 4.
Definition READ_COMMAND : Z := 0x1f4 / 4.
Definition TIME : Z := 0x1fc / 4.
End Registers.

Module Offset.
Definition CRORC : Z := 0.
Definition CRU : Z := 0.
Definition OTHER : Z := 0.
End Offset.

Definition MAX_BUSY_ITERATIONS : Z := 10000.

(** [ScaException() << ErrorInfo::Message(...)] *)
Record ScaException : Type := mkScaException { Message : string }.

(** [Sca::ReadResult] *)
Record ReadResult : Type := mkReadResult { command : Z; data : Z }.

(** The object's own data; [bar2] is a reference, so the device it refers to
    is the state of every method. *)
Record Sca : Type := mkSca { offset : Z }.

Definition Sca_new (cardType : CardType) : Sca :=
  mkSca (match cardType with
         | Crorc => Offset.CRORC
         | Cru => Offset.CRU
         | Unknown => Offset.OTHER
         end).

(** A method: runs on the device, returns or throws, leaves a device. *)
Definition M (B A : Type) : Type := B -> Outcome ScaException A * B.

Definition ret {B A} (a : A) : M B A := fun b => (Returned a, b).
Definition throw {B A} (e : ScaException) : M B A := fun b => (Thrown e, b).
Definition bind {B A C} (m : M B A) (k : A -> M B C) : M B C :=
  fun b => match m b with
           | (Returned a, b') => k a b'
           | (Thrown e, b') => (Thrown e, b')
           end.

Declare Scope sca_scope.
Delimit Scope sca_scope with sca.
Notation "x <- m ;; k" := (bind m (fun x => k))
  (at level 61, m at next level, right associativity) : sca_scope.
Notation "m ;; k" := (bind m (fun _ => k))
  (at level 61, right associativity) : sca_scope.
Open Scope sca_scope.

(** *** Pure helpers *)

Definition isChannelBusy (command : Z) : bool :=
  Z.land command 0xff =? 0x40.

Definition toString (flag : Z) : string :=
  match flag with
  | 1 => "invalid channel request"
  | 2 => "invalid command request"
  | 3 => "invalid transaction number"
  | 4 => "invalid length"
  | 5 => "channel not enabled"
  | 6 => "channel busy"
  | 7 => "channel busy"
  | _ => "generic error flag"
  end.

(** [for (int flag = 0; flag < 7; ++flag) if (getBit(errorCode, flag) == 1)
    flags.push_back(flag);] with [n] iterations left. *)
Fixpoint collectFlags (errorCode : Z) (n : nat) (flag : Z) (flags : list Z)
  : list Z :=
  match n with
  | O => flags
  | S n' =>
      collectFlags errorCode n' (flag + 1)
        (if Utilities.getBit errorCode flag =? 1 then flags ++ [flag] else flags)
  end.

(** [for (int i = 0; i < flags.size(); ++i) { stream << toString(flags[i]);
    if (i < flags.size()) stream << ", "; }] with [n] iterations left. *)
Fixpoint streamFlags (flags : list Z) (n : nat) (i : nat) (stream : string)
  : string :=
  match n with
  | O => stream
  | S n' =>
      let stream := (stream ++ toString (nth i flags 0))%string in
      let stream :=
        if (i <? List.length flags)%nat then (stream ++ ", ")%string else stream in
      streamFlags flags n' (S i) stream
  end.

(** [stream << errorCode] for a [uint32_t]: the stream is in its default
    (decimal) mode. *)
Definition showUInt (x : Z) : string := NilZero.string_of_uint (N.to_uint (Z.to_N x)).

Definition errorMessage (errorCode : Z) (flags : list Z) : string :=
  streamFlags flags (List.length flags) 0
    ("error code 0x" ++ showUInt errorCode ++ ": ")%string.

(** The polls of the loop in [Sca::read]: the number of times
    [isChannelBusy(command)] is evaluated with [n] iterations left. *)
Fixpoint readBusyPolls (n : nat) (command : Z) : nat :=
  match n with
  | O => O
  | S n' =>
      if negb (isChannelBusy command) then 1%nat
      else S (readBusyPolls n' command)
  end.

Section Engine.
Context {B : Type} {bar2 : RegisterReadWriteInterface B}.
Variable self : Sca.

Definition barWrite (index : Z) (data : Z) : M B unit :=
  fun b => (Returned tt, writeRegister b (index + offset self) data).

Definition barRead (index : Z) : M B Z :=
  fun b => let (v, b') := readRegister b (index + offset self) in (Returned v, b').

(** [for (int i = 0; i < MAX_BUSY_ITERATIONS; ++i) if (barRead(BUSY) == 0)
    return;] followed by the throw, with [n] iterations left. *)
Fixpoint waitOnBusyClear_loop (n : nat) : M B unit :=
  match n with
  | O => throw (mkScaException "Exceeded timeout on busy wait")
  | S n' =>
      v <- barRead Registers.BUSY ;;
      if v =? 0 then ret tt else waitOnBusyClear_loop n'
  end.

Definition waitOnBusyClear : M B unit :=
  waitOnBusyClear_loop (Z.to_nat MAX_BUSY_ITERATIONS).

Definition executeCommand : M B unit :=
  barWrite Registers.CONTROL 0x4 ;;
  barWrite Registers.CONTROL 0x0 ;;
  waitOnBusyClear.

Definition write (command data : Z) : M B unit :=
  barWrite Registers.WRITE_DATA data ;;
  barWrite Registers.WRITE_COMMAND command ;;
  executeCommand.

Definition checkError (command : Z) : M B unit :=
  let errorCode := Z.land command 0xff in
  let flags := collectFlags errorCode 7 0 [] in
  match flags with
  | [] => ret tt
  | _ :: _ => throw (mkScaException (errorMessage errorCode flags))
  end.

Definition read : M B ReadResult :=
  data <- barRead Registers.READ_DATA ;;
  command <- barRead Registers.READ_COMMAND ;;
  let _polls := readBusyPolls (Z.to_nat MAX_BUSY_ITERATIONS) command in
  checkError command ;;
  ret (mkReadResult command data).

Definition init : M B unit :=
  barWrite Registers.CONTROL 0x1 ;;
  waitOnBusyClear ;;
  barWrite Registers.CONTROL 0x2 ;;
  waitOnBusyClear ;;
  barWrite Registers.CONTROL 0x1 ;;
  waitOnBusyClear ;;
  barWrite Registers.CONTROL 0x0.

Definition gpioEnable : M B unit :=
  write 0x00010002 0xff000000 ;;
  read ;;
  write 0x00020003 0xff000000 ;;
  read ;;
  write 0x02030020 0xffffffff ;;
  write 0x02040021 0x0 ;;
  read ;;
  ret tt.

Definition initialize : M B unit :=
  init ;;
  gpioEnable.

Definition gpioWrite (data : Z) : M B ReadResult :=
  initialize ;;
  write 0x02040010 data ;;
  write 0x02050011 0x0 ;;
  read ;;
  write 0x02060001 0x0 ;;
  read.

Definition gpioRead : M B ReadResult :=
  write 0x02050011 0x0 ;;
  read.

End Engine.

End Alf.

(** ** A simulated register window

    [BUSY] reads 1 for the next [busyFor] polls and then 0; a write to
    [CONTROL] re-arms the countdown with [latency]; [READ_DATA] and
    [READ_COMMAND] answer with fixed words.  [stuck] keeps [BUSY] at 1. *)

Record SimBar : Type := mkSimBar {
  stuck : bool;
  latency : nat;
  busyFor : nat;
  answerCommand : Z;
  answerData : Z
}.

#[export] Instance SimBar_bar : RegisterReadWriteInterface SimBar := {
  readRegister b index :=
    if index =? Alf.Registers.BUSY then
      if stuck b then (1, b)
      else match busyFor b with
           | O => (0, b)
           | S k => (1, mkSimBar (stuck b) (latency b) k
                          (answerCommand b) (answerData b))
           end
    else if index =? Alf.Registers.READ_COMMAND then (answerCommand b, b)
    else if index =? Alf.Registers.READ_DATA then (answerData b, b)
    else (0, b);
  writeRegister b index value :=
    if index =? Alf.Registers.CONTROL then
      mkSimBar (stuck b) (latency b) (latency b) (answerCommand b) (answerData b)
    else b
}.

(** ** RocPciDevice.cxx *)

Module Roc.

(** [PciId]: the two identity strings of a card family. *)
Definition PciId : Type := (string * string)%type.

(** Modelled from the spec: [PciAddress] (ReadoutCard/ParameterTypes/
    PciAddress.h is not among the sources) is "PCI address (bus, device,
    function)"; two addresses are equal when their three numbers are. *)
Record PciAddress : Type := mkPciAddress {
  bus : Z;
  slot : Z;
  function : Z
}.

Definition PciAddress_eqb (a b : PciAddress) : bool :=
  (bus a =? bus b) && (slot a =? slot b) && (function a =? function b).

(** [CardDescriptor]: family, optional serial, identity, address, NUMA node. *)
Record CardDescriptor : Type := mkCardDescriptor {
  cardType : CardType;
  serialNumber : option Z;
  pciId : PciId;
  pciAddress : PciAddress;
  numaNode : Z
}.

(** [Parameters::CardIdType = boost::variant<int, PciAddress>] *)
Inductive CardIdType : Type :=
| CardIdSerial (serial : Z)
| CardIdAddress (address : PciAddress).

(** [Exception] with the [ErrorInfo] items this file attaches to it. *)
Record Exception : Type := mkException {
  Message : string;
  SerialNumber : option Z;
  PciAddressInfo : option PciAddress;
  PossibleCauses : list string
}.

Definition Exception_Message (message : string) : Exception :=
  mkException message None None [].

Definition withSerialNumber (e : Exception) (serial : Z) : Exception :=
  mkException (Message e) (Some serial) (PciAddressInfo e) (PossibleCauses e).

Definition withPciAddress (e : Exception) (address : PciAddress) : Exception :=
  mkException (Message e) (SerialNumber e) (Some address) (PossibleCauses e).

(** Modelled from the spec: [addPossibleCauses] (ExceptionInternal.h is not
    among the sources) adds to the context an error carries; here it adds the
    given causes after those already attached. *)
Definition addPossibleCauses (e : Exception) (causes : list string) : Exception :=
  mkException (Message e) (SerialNumber e) (PciAddressInfo e)
              (PossibleCauses e ++ causes).

Definition Exc (A : Type) : Type := Outcome Exception A.

Definition bind {A C} (m : Exc A) (k : A -> Exc C) : Exc C :=
  match m with
  | Returned a => k a
  | Thrown e => Thrown e
  end.

(** [try { m } catch (boost::exception& e) { ...; throw; }] *)
Definition rethrowing {A} (m : Exc A) (annotate : Exception -> Exception) : Exc A :=
  match m with
  | Returned a => Returned a
  | Thrown e => Thrown (annotate e)
  end.

Declare Scope exc_scope.
Delimit Scope exc_scope with exc.
Notation "x <- m ;; k" := (bind m (fun x => k))
  (at level 61, m at next level, right associativity) : exc_scope.
Open Scope exc_scope.

(** Modelled from the spec: the raw-PCI-access collaborator (Pda/PdaDevice.h,
    Pda/PdaBar.h, Crorc/Crorc.h, the body of [CruBar::getSerial] and the PDA
    library are not among the sources).  It offers "openDevice(identity) ->
    list of handles", "mapBar(handle, barIndex) -> register window" and
    "accessors for a device's bus/device/function address and NUMA node", and
    "failures from these calls" are "raised".  The three address accessors
    return a status, zero on success, next to the number they store.
    [Crorc_getSerial_bar0] opens BAR 0 of a device and reads the serial from
    the flash; [CruBar_getSerial_bar2] opens BAR 2 and asks the CRU for it. *)
Class Pda (PdaPciDevice : Type) : Type := {
  getPciDevices : PciId -> Exc (list PdaPciDevice);
  PciDevice_getBusID : PdaPciDevice -> Z * Z;
  PciDevice_getDeviceID : PdaPciDevice -> Z * Z;
  PciDevice_getFunctionID : PdaPciDevice -> Z * Z;
  PciDevice_getNumaNode : PdaPciDevice -> Z;
  Crorc_getSerial_bar0 : PdaPciDevice -> Exc (option Z);
  CruBar_getSerial_bar2 : PdaPciDevice -> Exc (option Z)
}.

(** [boost::optional<int32_t> == int] *)
Definition optional_eqb (o : option Z) (v : Z) : bool :=
  match o with
  | Some x => x =? v
  | None => false
  end.

Section RocPciDevice.
Context {PdaPciDevice : Type} {pda : Pda PdaPciDevice}.

Definition crorcGetSerial (pciDevice : PdaPciDevice) : Exc (option Z) :=
  Crorc_getSerial_bar0 pciDevice.

Definition cruGetSerial (pciDevice : PdaPciDevice) : Exc (option Z) :=
  CruBar_getSerial_bar2 pciDevice.

Record DeviceType : Type := mkDeviceType {
  deviceCardType : CardType;
  devicePciId : PciId;
  getSerial : PdaPciDevice -> Exc (option Z)
}.

Definition deviceTypes : list DeviceType :=
  [ mkDeviceType Crorc ("0033", "10dc") crorcGetSerial;
    mkDeviceType Cru ("e001", "1172") cruGetSerial ].

Definition addressFromDevice (pciDevice : PdaPciDevice) : Exc PciAddress :=
  let (busStatus, busId) := PciDevice_getBusID pciDevice in
  let (deviceStatus, deviceId) := PciDevice_getDeviceID pciDevice in
  let (functionStatus, functionId) := PciDevice_getFunctionID pciDevice in
  if negb (busStatus =? 0) || negb (deviceStatus =? 0)
     || negb (functionStatus =? 0)
  then Thrown (Exception_Message "Failed to retrieve device address")
  else Returned (mkPciAddress busId deviceId functionId).

Definition defaultDescriptor : CardDescriptor :=
  mkCardDescriptor Unknown (Some (-1)) ("unknown", "unknown")
                   (mkPciAddress 0 0 0) (-1).

(** The members a constructor leaves set. *)
Record RocPciDevice : Type := mkRocPciDevice {
  mPdaDevice : PciId;
  mPciDevice : PdaPciDevice;
  mDescriptor : CardDescriptor
}.

(** The inner loop of [initWithSerial]: [None] when it runs to its end. *)
Fixpoint initWithSerial_devices (type : DeviceType) (serial : Z)
  (pciDevices : list PdaPciDevice) : Exc (option RocPciDevice) :=
  match pciDevices with
  | [] => Returned None
  | pciDevice :: rest =>
      found <- getSerial type pciDevice ;;
      if optional_eqb found serial then
        address <- addressFromDevice pciDevice ;;
        Returned (Some (mkRocPciDevice (devicePciId type) pciDevice
          (mkCardDescriptor (deviceCardType type) (Some serial)
             (devicePciId type) address (PciDevice_getNumaNode pciDevice))))
      else initWithSerial_devices type serial rest
  end.

Fixpoint initWithSerial_types (types : list DeviceType) (serial : Z)
  : Exc (option RocPciDevice) :=
  match types with
  | [] => Returned None
  | type :: rest =>
      pciDevices <- getPciDevices (devicePciId type) ;;
      bound <- initWithSerial_devices type serial pciDevices ;;
      match bound with
      | Some device => Returned (Some device)
      | None => initWithSerial_types rest serial
      end
  end.

Definition initWithSerial (serial : Z) : Exc RocPciDevice :=
  rethrowing
    (bound <- initWithSerial_types deviceTypes serial ;;
     match bound with
     | Some device => Returned device
     | None => Thrown (Exception_Message "Could not find card")
     end)
    (fun e => addPossibleCauses (withSerialNumber e serial)
                ["Invalid serial number search target"]).

Fixpoint initWithAddress_devices (type : DeviceType) (address : PciAddress)
  (pciDevices : list PdaPciDevice) : Exc (option RocPciDevice) :=
  match pciDevices with
  | [] => Returned None
  | pciDevice :: rest =>
      found <- addressFromDevice pciDevice ;;
      if PciAddress_eqb found address then
        serial <- getSerial type pciDevice ;;
        Returned (Some (mkRocPciDevice (devicePciId type) pciDevice
          (mkCardDescriptor (deviceCardType type) serial
             (devicePciId type) address (PciDevice_getNumaNode pciDevice))))
      else initWithAddress_devices type address rest
  end.

Fixpoint initWithAddress_types (types : list DeviceType) (address : PciAddress)
  : Exc (option RocPciDevice) :=
  match types with
  | [] => Returned None
  | type :: rest =>
      pciDevices <- getPciDevices (devicePciId type) ;;
      bound <- initWithAddress_devices type address pciDevices ;;
      match bound with
      | Some device => Returned (Some device)
      | None => initWithAddress_types rest address
      end
  end.

Definition initWithAddress (address : PciAddress) : Exc RocPciDevice :=
  rethrowing
    (bound <- initWithAddress_types deviceTypes address ;;
     match bound with
     | Some device => Returned device
     | None => Thrown (Exception_Message "Could not find card")
     end)
    (fun e => addPossibleCauses (withPciAddress e address)
                ["Invalid PCI address search target"]).

(** [RocPciDevice::RocPciDevice(const Parameters::CardIdType&)] *)
Definition RocPciDevice_new (cardId : CardIdType) : Exc RocPciDevice :=
  match cardId with
  | CardIdSerial serial => initWithSerial serial
  | CardIdAddress address => initWithAddress address
  end.

(** [findSystemDevices()]: the inner loop pushes one descriptor per device. *)
Fixpoint findSystemDevices_devices (type : DeviceType)
  (pciDevices : list PdaPciDevice) (cards : list CardDescriptor)
  : Exc (list CardDescriptor) :=
  match pciDevices with
  | [] => Returned cards
  | pciDevice :: rest =>
      serial <- getSerial type pciDevice ;;
      address <- addressFromDevice pciDevice ;;
      findSystemDevices_devices type rest
        (cards ++ [mkCardDescriptor (deviceCardType type) serial
                     (devicePciId type) address
                     (PciDevice_getNumaNode pciDevice)])
  end.

Fixpoint findSystemDevices_types (types : list DeviceType)
  (cards : list CardDescriptor) : Exc (list CardDescriptor) :=
  match types with
  | [] => Returned cards
  | type :: rest =>
      pciDevices <- getPciDevices (devicePciId type) ;;
      cards' <- findSystemDevices_devices type pciDevices cards ;;
      findSystemDevices_types rest cards'
  end.

Definition findSystemDevices : Exc (list CardDescriptor) :=
  findSystemDevices_types deviceTypes [].

End RocPciDevice.

End Roc.

(** ** CruBar.h: the data-generator bit setters *)

Module Cru.

(** [GeneratorPattern::type], with the patterns Parameters.h lists for the
    CRU. *)
Inductive GeneratorPattern : Type := Constant | Alternating | Incremental.

(** A run of [width] bits that starts at bit [lsb]. *)
Record BitRange : Type := mkBitRange {
  lsb : Z;
  width : Z
}.

Definition ownedMask (f : BitRange) : Z := Z.shiftl (Z.ones (width f)) (lsb f).

(** Modelled from the spec: the bodies of the four static setters that
    Cru/CruBar.h declares ([setDataGeneratorPatternBits],
    [setDataGeneratorSizeBits], [setDataGeneratorEnableBits],
    [setDataGeneratorRandomSizeBits]; CruBar.cxx is not among the sources).
    Each "receives the current register value by reference" and
    "reads-modifies-writes": the word that comes back is the word that went
    in, with the setter's own bits cleared and the new field put there.  The
    spec names no bit positions and no encodings; they are the [Layout]. *)
Definition setBits (f : BitRange) (value : Z) (bits : Z) : Z :=
  Z.lor (Z.ldiff bits (ownedMask f))
        (Z.land (Z.shiftl value (lsb f)) (ownedMask f)).

Record Layout : Type := mkLayout {
  patternBits : BitRange;
  sizeBits : BitRange;
  enableBit : Z;
  randomSizeBit : Z;
  patternCode : GeneratorPattern -> Z;
  sizeCode : Z -> Z
}.

Section Setters.
Variable layout : Layout.

Definition setDataGeneratorPatternBits (bits : Z) (pattern : GeneratorPattern) : Z :=
  setBits (patternBits layout) (patternCode layout pattern) bits.

Definition setDataGeneratorSizeBits (bits : Z) (size : Z) : Z :=
  setBits (sizeBits layout) (sizeCode layout size) bits.

Definition setDataGeneratorEnableBits (bits : Z) (enabled : bool) : Z :=
  setBits (mkBitRange (enableBit layout) 1) (Z.b2z enabled) bits.

Definition setDataGeneratorRandomSizeBits (bits : Z) (enabled : bool) : Z :=
  setBits (mkBitRange (randomSizeBit layout) 1) (Z.b2z enabled) bits.

(** One call of one of the four setters. *)
Inductive Setter : Type :=
| SetPattern (pattern : GeneratorPattern)
| SetSize (size : Z)
| SetEnable (enabled : bool)
| SetRandomSize (enabled : bool).

Definition applySetter (S : Setter) (bits : Z) : Z :=
  match S with
  | SetPattern pattern => setDataGeneratorPatternBits bits pattern
  | SetSize size => setDataGeneratorSizeBits bits size
  | SetEnable enabled => setDataGeneratorEnableBits bits enabled
  | SetRandomSize enabled => setDataGeneratorRandomSizeBits bits enabled
  end.

(** The bits a setter owns. *)
Definition owned (S : Setter) : BitRange :=
  match S with
  | SetPattern _ => patternBits layout
  | SetSize _ => sizeBits layout
  | SetEnable _ => mkBitRange (enableBit layout) 1
  | SetRandomSize _ => mkBitRange (randomSizeBit layout) 1
  end.

End Setters.

(** The word with the bits of [f] blanked: all the other bits. *)
Definition decode_other_bits (f : BitRange) (bits : Z) : Z :=
  Z.ldiff bits (ownedMask f).

(** The field held in the bits of [g]. *)
Definition getBits (g : BitRange) (bits : Z) : Z :=
  Z.land (Z.shiftr bits (lsb g)) (Z.ones (width g)).

(** [f] lies inside a 32-bit word. *)
Definition inWord (f : BitRange) : Prop :=
  0 <= lsb f /\ 0 <= width f /\ lsb f + width f <= 32.

Definition disjoint (f g : BitRange) : Prop :=
  lsb f + width f <= lsb g \/ lsb g + width g <= lsb f.

(** A layout to run the setters on: enable in bit 0, pattern in bits 1..2,
    size in bits 8..15, random size in bit 16. *)
Definition sampleLayout : Layout :=
  mkLayout (mkBitRange 1 2) (mkBitRange 8 8) 0 16
    (fun pattern => match pattern with
                    | Incremental => 1
                    | Alternating => 2
                    | Constant => 3
                    end)
    (fun size => size / 32 - 1).

End Cru.

(** ** Vocabulary for the properties of the SCA engine *)

Module AlfSpec.
Import Alf.

Definition timeoutError : ScaException :=
  mkScaException "Exceeded timeout on busy wait".

(** The iteration budget as the loops use it. *)
Definition budget : nat := Z.to_nat MAX_BUSY_ITERATIONS.

Definition nonzero (v : Z) : Prop := v <> 0.

Section Polls.
Context {B : Type} {bar2 : RegisterReadWriteInterface B}.
Variable self : Sca.

(** The index [barRead(Registers::BUSY)] reaches the device with. *)
Definition busyIndex : Z := Registers.BUSY + offset self.

(** What [n] consecutive polls of BUSY read, and the device after them. *)
Fixpoint busyPolls (n : nat) (b : B) : list Z :=
  match n with
  | O => []
  | S n' => let (v, b') := readRegister b busyIndex in v :: busyPolls n' b'
  end.

Fixpoint afterPolls (n : nat) (b : B) : B :=
  match n with
  | O => b
  | S n' => afterPolls n' (snd (readRegister b busyIndex))
  end.

(** The device after the four register writes that start [Sca::write]. *)
Definition afterWriteRegisters (command data : Z) (b : B) : B :=
  writeRegister
    (writeRegister
       (writeRegister
          (writeRegister b (Registers.WRITE_DATA + offset self) data)
          (Registers.WRITE_COMMAND + offset self) command)
       (Registers.CONTROL + offset self) 0x4)
    (Registers.CONTROL + offset self) 0x0.

Definition busyReads (values : list Z) : list BarEvent :=
  map (EvRead busyIndex) values.

Definition writeRegisters (command data : Z) : list BarEvent :=
  [EvWrite (Registers.WRITE_DATA + offset self) data;
   EvWrite (Registers.WRITE_COMMAND + offset self) command;
   EvWrite (Registers.CONTROL + offset self) 0x4;
   EvWrite (Registers.CONTROL + offset self) 0x0].

End Polls.

(** All the strings of a list, one after the other. *)
Definition joinAll (l : list string) : string :=
  fold_right String.append "" l.

(** The flags [checkError] decodes: the bits among 0..6 that are set, in
    ascending order. *)
Definition decodedFlags (command : Z) : list Z :=
  filter (fun flag => Z.testbit command flag) [0; 1; 2; 3; 4; 5; 6].

(** A flag name as it is streamed: followed by the separator. *)
Definition named (flag : Z) : string := (toString flag ++ ", ")%string.

Definition header (errorCode : Z) : string :=
  ("error code 0x" ++ showUInt errorCode ++ ": ")%string.

Fixpoint zrange (from : Z) (n : nat) : list Z :=
  match n with
  | O => []
  | S n' => from :: zrange (from + 1) n'
  end.

(** A run seen at the level of the protocol: register writes with their
    words, register reads, and waits.  A wait is a maximal run of BUSY reads. *)
Inductive Step : Type :=
| StepWrite (index value : Z)
| StepRead (index : Z)
| StepWaitNotBusy.

Definition isBusyRead (busy : Z) (ev : BarEvent) : bool :=
  match ev with
  | EvRead index _ => index =? busy
  | EvWrite _ _ => false
  end.

(** The events do not open with a BUSY read. *)
Definition cleanStart (busy : Z) (t : list BarEvent) : bool :=
  match t with
  | [] => true
  | ev :: _ => negb (isBusyRead busy ev)
  end.

Fixpoint steps (busy : Z) (t : list BarEvent) : list Step :=
  match t with
  | [] => []
  | EvWrite index value :: t' => StepWrite index value :: steps busy t'
  | EvRead index _ :: t' =>
      if index =? busy then
        if cleanStart busy t' then StepWaitNotBusy :: steps busy t'
        else steps busy t'
      else StepRead index :: steps busy t'
  end.

Section StepsOf.
Context {B : Type}.
Variable self : Sca.

(** What the steps of [init], [write] and [read] should be. *)
Definition initSteps : list Step :=
  [StepWrite (Registers.CONTROL + offset self) 0x1; StepWaitNotBusy;
   StepWrite (Registers.CONTROL + offset self) 0x2; StepWaitNotBusy;
   StepWrite (Registers.CONTROL + offset self) 0x1; StepWaitNotBusy;
   StepWrite (Registers.CONTROL + offset self) 0x0].

Definition writeSteps (command data : Z) : list Step :=
  [StepWrite (Registers.WRITE_DATA + offset self) data;
   StepWrite (Registers.WRITE_COMMAND + offset self) command;
   StepWrite (Registers.CONTROL + offset self) 0x4;
   StepWrite (Registers.CONTROL + offset self) 0x0;
   StepWaitNotBusy].

Definition readSteps : list Step :=
  [StepRead (Registers.READ_DATA + offset self);
   StepRead (Registers.READ_COMMAND + offset self)].

(** The last two events are the reads that produced [result]. *)
Definition lastRead (result : ReadResult) (t : list BarEvent) : Prop :=
  exists front,
    t = front ++ [EvRead (Registers.READ_DATA + offset self) (data result);
                  EvRead (Registers.READ_COMMAND + offset self) (command result)].

Definition anyEvents {A} (_ : A) (_ : list BarEvent) : Prop := True.

(** [Emits m sts Q]: whenever [m] returns, the tape has gained events whose
    steps are [sts] and that satisfy [Q] together with the returned value. *)
Definition Emits {A} (m : M (Recorder B) A) (sts : list Step)
  (Q : A -> list BarEvent -> Prop) : Prop :=
  forall r a r',
    m r = (Returned a, r') ->
    exists t, tape r' = tape r ++ t
              /\ cleanStart (busyIndex self) t = true
              /\ steps (busyIndex self) t = sts
              /\ Q a t.

Definition prefixClosed {A} (Q : A -> list BarEvent -> Prop) : Prop :=
  forall a t1 t2, Q a t2 -> Q a (t1 ++ t2).

(** The steps of the GPIO-enable sequence and of [gpioWrite], from the
    order of the calls in the source. *)
Definition gpioEnableSteps : list Step :=
  writeSteps 0x00010002 0xff000000 ++ readSteps
  ++ writeSteps 0x00020003 0xff000000 ++ readSteps
  ++ writeSteps 0x02030020 0xffffffff
  ++ writeSteps 0x02040021 0x0 ++ readSteps.

Definition initializeSteps : list Step := initSteps ++ gpioEnableSteps.

Definition gpioWriteSteps (data : Z) : list Step :=
  initializeSteps
  ++ writeSteps 0x02040010 data
  ++ writeSteps 0x02050011 0x0 ++ readSteps
  ++ writeSteps 0x02060001 0x0 ++ readSteps.

(** The same two sequences as the specification words them: a read after
    every write ("four write/read pairs", "three write/read pairs"). *)
Definition gpioEnablePairs_spec : list Step :=
  (writeSteps 0x00010002 0xff000000 ++ readSteps)
  ++ (writeSteps 0x00020003 0xff000000 ++ readSteps)
  ++ (writeSteps 0x02030020 0xffffffff ++ readSteps)
  ++ (writeSteps 0x02040021 0x0 ++ readSteps).

Definition gpioWritePairs_spec (data : Z) : list Step :=
  (writeSteps 0x02040010 data ++ readSteps)
  ++ (writeSteps 0x02050011 0x0 ++ readSteps)
  ++ (writeSteps 0x02060001 0x0 ++ readSteps).

End StepsOf.

Definition cruSca : Sca := Sca_new Cru.

(** BUSY stays high for two polls after each CONTROL write; no error flags. *)
Definition idleBar : Recorder SimBar :=
  mkRecorder (mkSimBar false 2 0 0x0 0x7) [].

(** BUSY never clears. *)
Definition stuckBar : Recorder SimBar :=
  mkRecorder (mkSimBar true 0 0 0x0 0x0) [].

End AlfSpec.

(** ** Vocabulary for the properties of the enumeration *)

Module RocSpec.
Import Roc.

Section Candidates.
Context {PdaPciDevice : Type} {pda : Pda PdaPciDevice}.

(** Every device of every family of [types], family by family in table
    order, each family in discovery order. *)
Fixpoint scan (types : list (@DeviceType PdaPciDevice))
  : Exc (list (@DeviceType PdaPciDevice * PdaPciDevice)) :=
  match types with
  | [] => Returned []
  | type :: rest =>
      pciDevices <- getPciDevices (devicePciId type) ;;
      more <- scan rest ;;
      Returned (map (pair type) pciDevices ++ more)
  end.

(** [card] is the descriptor of device [d] of family [type]. *)
Definition describes (candidate : @DeviceType PdaPciDevice * PdaPciDevice)
  (card : CardDescriptor) : Prop :=
  let (type, d) := candidate in
  exists serial address,
    getSerial type d = Returned serial
    /\ addressFromDevice d = Returned address
    /\ card = mkCardDescriptor (deviceCardType type) serial (devicePciId type)
                address (PciDevice_getNumaNode d).

(** Both reads a descriptor needs succeed. *)
Definition describable (candidate : @DeviceType PdaPciDevice * PdaPciDevice) : Prop :=
  let (type, d) := candidate in
  (exists serial, getSerial type d = Returned serial)
  /\ (exists address, addressFromDevice d = Returned address).

(** Device [d] of family [type] is read without error and is not the one
    searched for. *)
Definition otherSerial (serial : Z) (type : @DeviceType PdaPciDevice)
  (d : PdaPciDevice) : Prop :=
  exists found, getSerial type d = Returned found /\ found <> Some serial.

Definition otherAddress (address : PciAddress) (d : PdaPciDevice) : Prop :=
  exists found, addressFromDevice d = Returned found /\ found <> address.

(** Family [type] enumerates, and none of its devices passes [other]. *)
Definition familyWithout (other : @DeviceType PdaPciDevice -> PdaPciDevice -> Prop)
  (type : @DeviceType PdaPciDevice) : Prop :=
  exists pciDevices,
    getPciDevices (devicePciId type) = Returned pciDevices
    /\ Forall (other type) pciDevices.

(** What the constructor leaves when it binds to [d] of family [type]. *)
Definition boundTo (type : @DeviceType PdaPciDevice) (d : PdaPciDevice)
  (serial : option Z) (address : PciAddress) : RocPciDevice :=
  mkRocPciDevice (devicePciId type) d
    (mkCardDescriptor (deviceCardType type) serial (devicePciId type) address
       (PciDevice_getNumaNode d)).

Definition notFoundSerial (serial : Z) : Exception :=
  mkException "Could not find card" (Some serial) None
              ["Invalid serial number search target"].

Definition notFoundAddress (address : PciAddress) : Exception :=
  mkException "Could not find card" None (Some address)
              ["Invalid PCI address search target"].

End Candidates.

(** *** A simulated raw-PCI layer *)

(** A device handle that carries what each accessor answers for it. *)
Record SimPci : Type := mkSimPci {
  simBus : Z * Z;
  simDevice : Z * Z;
  simFunction : Z * Z;
  simNuma : Z;
  simSerial : Exc (option Z)
}.

Definition PciId_eqb (a b : PciId) : bool :=
  (fst a =? fst b)%string && (snd a =? snd b)%string.

(** A host with the given C-RORC and CRU devices. *)
Definition simHost (crorcs crus : Exc (list SimPci)) : Pda SimPci := {|
  getPciDevices id :=
    if PciId_eqb id ("0033", "10dc") then crorcs
    else if PciId_eqb id ("e001", "1172") then crus
    else Returned [];
  PciDevice_getBusID := simBus;
  PciDevice_getDeviceID := simDevice;
  PciDevice_getFunctionID := simFunction;
  PciDevice_getNumaNode := simNuma;
  Crorc_getSerial_bar0 := simSerial;
  CruBar_getSerial_bar2 := simSerial
|}.

Definition mapFailure : Exception := Exception_Message "Failed to map BAR".

(** Its BAR cannot be mapped, so reading its serial raises. *)
Definition unmappableCard : SimPci :=
  mkSimPci (0, 3) (0, 0) (0, 0) 0 (Thrown mapFailure).

(** Its serial reads as absent. *)
Definition blankCard : SimPci :=
  mkSimPci (0, 3) (0, 0) (0, 0) 0 (Returned None).

Definition crorcCard : SimPci :=
  mkSimPci (0, 4) (0, 0) (0, 0) 0 (Returned (Some 12345)).

Definition cruCard : SimPci :=
  mkSimPci (0, 5) (0, 0) (0, 0) 1 (Returned (Some 777)).

Definition crorcCardDescriptor : CardDescriptor :=
  mkCardDescriptor Crorc (Some 12345) ("0033", "10dc") (mkPciAddress 4 0 0) 0.

End RocSpec.

(** ** RocPciDevice.cxx: the filtering overloads of [findSystemDevices] *)

Module RocFind.
Import Roc.

Section Filters.
Context {PdaPciDevice : Type} {pda : Pda PdaPciDevice}.

(** [findSystemDevices(int serialNumber)]: the inner loop.  The serial is
    read once for the test and once more for the descriptor. *)
Fixpoint findSystemDevices_serial_devices (type : @DeviceType PdaPciDevice)
  (serialNumber : Z) (pciDevices : list PdaPciDevice)
  (cards : list CardDescriptor) : Exc (list CardDescriptor) :=
  match pciDevices with
  | [] => Returned cards
  | pciDevice :: rest =>
      found <- getSerial type pciDevice ;;
      if optional_eqb found serialNumber then
        serial <- getSerial type pciDevice ;;
        address <- addressFromDevice pciDevice ;;
        findSystemDevices_serial_devices type serialNumber rest
          (cards ++ [mkCardDescriptor (deviceCardType type) serial
                       (devicePciId type) address
                       (PciDevice_getNumaNode pciDevice)])
      else findSystemDevices_serial_devices type serialNumber rest cards
  end.

Fixpoint findSystemDevices_serial_types (types : list (@DeviceType PdaPciDevice))
  (serialNumber : Z) (cards : list CardDescriptor) : Exc (list CardDescriptor) :=
  match types with
  | [] => Returned cards
  | type :: rest =>
      pciDevices <- getPciDevices (devicePciId type) ;;
      cards' <- findSystemDevices_serial_devices type serialNumber pciDevices
                  cards ;;
      findSystemDevices_serial_types rest serialNumber cards'
  end.

Definition findSystemDevices_serial (serialNumber : Z)
  : Exc (list CardDescriptor) :=
  rethrowing
    (findSystemDevices_serial_types deviceTypes serialNumber [])
    (fun e => addPossibleCauses (withSerialNumber e serialNumber)
                ["Invalid serial number search target"]).

(** [findSystemDevices(const PciAddress& address)]: the inner loop.  The
    descriptor takes the address searched for. *)
Fixpoint findSystemDevices_address_devices (type : @DeviceType PdaPciDevice)
  (address : PciAddress) (pciDevices : list PdaPciDevice)
  (cards : list CardDescriptor) : Exc (list CardDescriptor) :=
  match pciDevices with
  | [] => Returned cards
  | pciDevice :: rest =>
      found <- addressFromDevice pciDevice ;;
      if PciAddress_eqb found address then
        serial <- getSerial type pciDevice ;;
        findSystemDevices_address_devices type address rest
          (cards ++ [mkCardDescriptor (deviceCardType type) serial
                       (devicePciId type) address
                       (PciDevice_getNumaNode pciDevice)])
      else findSystemDevices_address_devices type address rest cards
  end.

Fixpoint findSystemDevices_address_types (types : list (@DeviceType PdaPciDevice))
  (address : PciAddress) (cards : list CardDescriptor)
  : Exc (list CardDescriptor) :=
  match types with
  | [] => Returned cards
  | type :: rest =>
      pciDevices <- getPciDevices (devicePciId type) ;;
      cards' <- findSystemDevices_address_devices type address pciDevices
                  cards ;;
      findSystemDevices_address_types rest address cards'
  end.

Definition findSystemDevices_address (address : PciAddress)
  : Exc (list CardDescriptor) :=
  rethrowing
    (findSystemDevices_address_types deviceTypes address [])
    (fun e => addPossibleCauses (withPciAddress e address)
                ["Invalid PCI address search target"]).

(** A descriptor carries the serial, or the address, searched for. *)
Definition hasSerial (serialNumber : Z) (card : CardDescriptor) : bool :=
  optional_eqb (Roc.serialNumber card) serialNumber.

Definition hasAddress (address : PciAddress) (card : CardDescriptor) : bool :=
  PciAddress_eqb (pciAddress card) address.

(** The serial of device [d] of family [type] reads as [serialNumber]. *)
Definition matchesSerial (serialNumber : Z)
  (candidate : @DeviceType PdaPciDevice * PdaPciDevice) : bool :=
  match getSerial (fst candidate) (snd candidate) with
  | Returned found => optional_eqb found serialNumber
  | Thrown _ => false
  end.

(** The serial of the device can be read. *)
Definition serialReadable
  (candidate : @DeviceType PdaPciDevice * PdaPciDevice) : Prop :=
  exists found, getSerial (fst candidate) (snd candidate) = Returned found.

End Filters.

(** A simulated card whose bus number cannot be read; its serial reads 1. *)
Definition addresslessCard : RocSpec.SimPci :=
  RocSpec.mkSimPci (1, 0) (0, 0) (0, 0) 0 (Returned (Some 1)).

(** A host with that card, a C-RORC and a CRU. *)
Definition mixedHost : Roc.Pda RocSpec.SimPci :=
  RocSpec.simHost (Returned [addresslessCard; RocSpec.crorcCard])
                  (Returned [RocSpec.cruCard]).

End RocFind.

(** ** More vocabulary for the SCA engine: failures and access counts *)

Module AlfMoreSpec.
Import Alf AlfSpec.

Section Outcomes.
Context {B : Type}.
Variable self : Sca.

(** The steps of [gpioRead], from the order of the calls in the source. *)
Definition gpioReadSteps : list Step :=
  writeSteps self 0x02050011 0x0 ++ readSteps self.

(** The events [t] end with a full budget of BUSY reads, none of them zero,
    and [e] is the timeout error. *)
Definition endsInTimeout (e : ScaException) (t : list BarEvent) : Prop :=
  e = timeoutError
  /\ exists front polls,
       t = front ++ busyReads self polls
       /\ Z.of_nat (List.length polls) = MAX_BUSY_ITERATIONS
       /\ Forall nonzero polls.

(** The events [t] end with the two reads of [Sca::read], the command word
    read has an error flag set, and [e] is the error [checkError] builds
    for that word. *)
Definition endsInFlagError (e : ScaException) (t : list BarEvent) : Prop :=
  exists front d c,
    t = front ++ [EvRead (Registers.READ_DATA + offset self) d;
                  EvRead (Registers.READ_COMMAND + offset self) c]
    /\ decodedFlags c <> []
    /\ e = mkScaException (errorMessage (Z.land c 0xff) (decodedFlags c)).

(** [Fails m]: whenever [m] throws, the register access that made it throw
    is the last one on the tape. *)
Definition Fails {A} (m : M (Recorder B) A) : Prop :=
  forall r e r',
    m r = (Thrown e, r') ->
    exists t, tape r' = tape r ++ t
              /\ (endsInTimeout e t \/ endsInFlagError e t).

(** [Bounded m n]: whatever its outcome, [m] only adds to the tape, and at
    most [n] events. *)
Definition Bounded {A} (m : M (Recorder B) A) (n : Z) : Prop :=
  forall r,
    exists t, tape (snd (m r)) = tape r ++ t
              /\ Z.of_nat (List.length t) <= n.

End Outcomes.

(** BUSY clears at once; READ_COMMAND answers with error flags 1 and 4. *)
Definition flaggedBar : Recorder SimBar :=
  mkRecorder (mkSimBar false 0 0 0x12 0x0) [].

(** BUSY stays high for 9,999 polls after each CONTROL write. *)
Definition slowBar : Recorder SimBar :=
  mkRecorder (mkSimBar false (Z.to_nat 9999) 0 0x0 0x7) [].

End AlfMoreSpec.

(** ** Vocabulary for whole runs of the SCA engine *)

Module AlfRunSpec.
Import Alf AlfSpec.

(** One step of a sequence as the source writes it: a register write with
    its word, a wait for BUSY to clear, and the two reads of [Sca::read]. *)
Inductive Op : Type :=
| OpWrite (index value : Z)
| OpWaitNotBusy
| OpReadData
| OpReadCommand.

(** The sequences of [init], [write], [read], [gpioEnable] and [initialize],
    from the order of the calls in the source. *)
Definition initOps : list Op :=
  [OpWrite Registers.CONTROL 0x1; OpWaitNotBusy;
   OpWrite Registers.CONTROL 0x2; OpWaitNotBusy;
   OpWrite Registers.CONTROL 0x1; OpWaitNotBusy;
   OpWrite Registers.CONTROL 0x0].

Definition writeOps (command data : Z) : list Op :=
  [OpWrite Registers.WRITE_DATA data;
   OpWrite Registers.WRITE_COMMAND command;
   OpWrite Registers.CONTROL 0x4;
   OpWrite Registers.CONTROL 0x0;
   OpWaitNotBusy].

Definition readOps : list Op := [OpReadData; OpReadCommand].

Definition gpioEnableOps : list Op :=
  writeOps 0x00010002 0xff000000 ++ readOps
  ++ writeOps 0x00020003 0xff000000 ++ readOps
  ++ writeOps 0x02030020 0xffffffff
  ++ writeOps 0x02040021 0x0 ++ readOps.

Definition initializeOps : list Op := initOps ++ gpioEnableOps.

Section Runs.
Context {B : Type}.
Variable self : Sca.

(** The events [t] are the sequence [ops] carried out to its end: every
    write is the write of the sequence; every wait is a run of reads of BUSY
    that are all non-zero, fewer than the budget of them, closed by one read
    of zero; every read of READ_COMMAND takes a word with no error flag. *)
Fixpoint Performs (ops : list Op) (t : list BarEvent) : Prop :=
  match ops with
  | [] => t = []
  | OpWrite index value :: rest =>
      exists t', t = EvWrite (index + offset self) value :: t'
                 /\ Performs rest t'
  | OpWaitNotBusy :: rest =>
      exists polls t',
        t = busyReads self (polls ++ [0]) ++ t'
        /\ Forall nonzero polls
        /\ Z.of_nat (List.length polls) < MAX_BUSY_ITERATIONS
        /\ Performs rest t'
  | OpReadData :: rest =>
      exists d t', t = EvRead (Registers.READ_DATA + offset self) d :: t'
                   /\ Performs rest t'
  | OpReadCommand :: rest =>
      exists c t', t = EvRead (Registers.READ_COMMAND + offset self) c :: t'
                   /\ decodedFlags c = []
                   /\ Performs rest t'
  end.

(** The events [t] are the sequence [ops] cut short with the error [e]: the
    steps before the failing one are carried out as in [Performs]; the
    failing one is either a wait that reads BUSY non-zero for the whole
    budget, with the timeout error, or a read of READ_COMMAND that takes a
    word with an error flag, with the error [checkError] builds for it;
    nothing follows the failing step. *)
Fixpoint Aborts (ops : list Op) (e : ScaException) (t : list BarEvent)
  : Prop :=
  match ops with
  | [] => False
  | OpWrite index value :: rest =>
      exists t', t = EvWrite (index + offset self) value :: t'
                 /\ Aborts rest e t'
  | OpWaitNotBusy :: rest =>
      (exists polls,
         t = busyReads self polls
         /\ Forall nonzero polls
         /\ Z.of_nat (List.length polls) = MAX_BUSY_ITERATIONS
         /\ e = timeoutError)
      \/ (exists polls t',
            t = busyReads self (polls ++ [0]) ++ t'
            /\ Forall nonzero polls
            /\ Z.of_nat (List.length polls) < MAX_BUSY_ITERATIONS
            /\ Aborts rest e t')
  | OpReadData :: rest =>
      exists d t', t = EvRead (Registers.READ_DATA + offset self) d :: t'
                   /\ Aborts rest e t'
  | OpReadCommand :: rest =>
      exists c t',
        t = EvRead (Registers.READ_COMMAND + offset self) c :: t'
        /\ ((decodedFlags c <> []
             /\ t' = []
             /\ e = mkScaException
                      (errorMessage (Z.land c 0xff) (decodedFlags c)))
            \/ (decodedFlags c = [] /\ Aborts rest e t'))
  end.

(** [Runs m ops]: from any device, what [m] adds to the tape is [ops]
    carried out to its end when [m] returns, and [ops] cut short with the
    error thrown when [m] throws. *)
Definition Runs {A} (m : M (Recorder B) A) (ops : list Op) : Prop :=
  forall r,
    exists t,
      tape (snd (m r)) = tape r ++ t
      /\ match fst (m r) with
         | Returned _ => Performs ops t
         | Thrown e => Aborts ops e t
         end.

End Runs.

End AlfRunSpec.

(** ** ProgramRegisterReadRange.cxx and ProgramRegisterWrite.cxx

    The [run] methods, from the point where the options are parsed and the
    channel is open: the channel is the device, the option values are the
    arguments. *)

Module Programs.

(** What [std::vector<uint32_t> values(range)] throws when the [int] [range]
    is negative and so converts to a size beyond [max_size()]. *)
Inductive StdException : Type := vector_length_error.

(** ['\n'] *)
Definition newline : string := String "010"%char EmptyString.

(** [stream << std::hex << value] for a [uint32_t]. *)
Definition showHex (x : Z) : string :=
  HexadecimalString.NilZero.string_of_uint (N.to_hex_uint (Z.to_N x)).

(** What [ProgramRegisterReadRange::run] puts out: one call of
    [Common::makeRegisterString(address, value)] per line on the console, or
    the words of [values] written to the file. *)
Inductive RangeOutput : Type :=
| ConsoleLines (lines : list (Z * Z))
| FileWords (file : string) (words : list Z).

(** What [ProgramRegisterWrite::run] puts out: one call of
    [Common::makeRegisterString(address, value)], or a text. *)
Inductive WriteOutput : Type :=
| RegisterString (address value : Z)
| Text (text : string).

(** The value of an [int] expression whose mathematical result is [x]: the
    result itself when it fits 32 bits, and the two's complement wrap of it
    when it does not (what the compiled program computes on overflow). *)
Definition int_wrap (x : Z) : Z := (x + 2 ^ 31) mod 2 ^ 32 - 2 ^ 31.

(** [values[i] = v], for [i] inside the vector. *)
Fixpoint assign (i : nat) (v : Z) (values : list Z) : list Z :=
  match values, i with
  | [], _ => []
  | _ :: rest, O => v :: rest
  | x :: rest, S i' => x :: assign i' v rest
  end.

(** [for (int i = 0; i < range; ++i) cout << makeRegisterString((baseIndex +
    i) * 4, values[i]) << '\n';] with [n] iterations left. *)
Fixpoint readRange_lines (baseIndex : Z) (n : nat) (i : Z) (values : list Z)
  : list (Z * Z) :=
  match n with
  | O => []
  | S n' =>
      (int_wrap (int_wrap (baseIndex + i) * 4), nth (Z.to_nat i) values 0)
      :: readRange_lines baseIndex n' (i + 1) values
  end.

Section RegisterPrograms.
Context {B : Type} {channel : RegisterReadWriteInterface B}.

(** [for (int i = 0; i < range; ++i) values[i] =
    channel->readRegister(baseIndex + i);] with [n] iterations left. *)
Fixpoint readRange_fill (baseIndex : Z) (n : nat) (i : Z) (values : list Z)
  (b : B) : list Z * B :=
  match n with
  | O => (values, b)
  | S n' =>
      let (v, b') := readRegister b (int_wrap (baseIndex + i)) in
      readRange_fill baseIndex n' (i + 1) (assign (Z.to_nat i) v values) b'
  end.

(** [baseAddress] and [range] are the [int]s the options give; the index
    [baseIndex + i] and the address [(baseIndex + i) * 4] are [int]
    expressions.  The vector of [range] words is taken to be allocated. *)
Definition ProgramRegisterReadRange_run (baseAddress range : Z)
  (mFile : string) (b : B) : Outcome StdException RangeOutput * B :=
  if range <? 0 then (Thrown vector_length_error, b)
  else
    let values := repeat 0 (Z.to_nat range) in
    let baseIndex := Z.quot baseAddress 4 in
    let (values, b') :=
      readRange_fill baseIndex (Z.to_nat range) 0 values b in
    if (mFile =? "")%string
    then (Returned (ConsoleLines
                      (readRange_lines baseIndex (Z.to_nat range) 0 values)),
          b')
    else (Returned (FileWords mFile values), b').

Definition ProgramRegisterWrite_run (address registerValue : Z)
  (readback verbose : bool) (b : B) : WriteOutput * B :=
  let b1 := writeRegister b (Z.quot address 4) (registerValue mod 2 ^ 32) in
  if readback then
    let (value, b2) := readRegister b1 (Z.quot address 4) in
    if verbose then (RegisterString address value, b2)
    else (Text ("0x" ++ showHex value ++ newline)%string, b2)
  else (Text (if verbose then ("Done!" ++ newline)%string else newline), b1).

End RegisterPrograms.

(** Register [k] of a range that starts at byte address [baseAddress], with
    the word read from it. *)
Definition rangeRead (baseAddress : Z) (kv : nat * Z) : BarEvent :=
  EvRead (int_wrap (Z.quot baseAddress 4 + Z.of_nat (fst kv))) (snd kv).

Definition rangeLine (baseAddress : Z) (kv : nat * Z) : Z * Z :=
  (int_wrap (int_wrap (Z.quot baseAddress 4 + Z.of_nat (fst kv)) * 4),
   snd kv).

(** An [int]. *)
Definition isInt (x : Z) : Prop := - 2 ^ 31 <= x < 2 ^ 31.

(** A register window whose register [i] reads [2 * i]. *)
Definition doublingBar : RegisterReadWriteInterface unit := {|
  readRegister b index := (2 * index, b);
  writeRegister b _ _ := b
|}.

End Programs.

(** ** Facts about the bit helpers *)

Module UtilitiesFacts.
Import Utilities.

Lemma getBit_testbit x i : 0 <= i -> (getBit x i =? 1) = Z.testbit x i.
Proof.
  intros Hi. unfold getBit.
  change 1 with (Z.ones 1) at 1. rewrite Z.land_ones by lia.
  change (2 ^ 1) with 2. rewrite <- Z.bit0_mod, Z.shiftr_spec by lia.
  rewrite Z.add_0_l. destruct (Z.testbit x i); reflexivity.
Qed.

End UtilitiesFacts.

(** ** Properties of the SCA engine *)

Module AlfFacts.
Import Alf AlfSpec.

Lemma budget_value : Z.of_nat budget = 10000.
Proof. reflexivity. Qed.

Lemma nonzero_forallb l :
  forallb (fun v => negb (v =? 0)) l = true -> Forall nonzero l.
Proof.
  rewrite forallb_forall, Forall_forall. intros H v Hv.
  specialize (H v Hv). unfold nonzero.
  destruct (Z.eqb_spec v 0); [discriminate | assumption].
Qed.

(** *** Inversion of the monad *)

Lemma bind_returned {B A C} (m : M B A) (k : A -> M B C) b c b' :
  bind m k b = (Returned c, b') ->
  exists a b1, m b = (Returned a, b1) /\ k a b1 = (Returned c, b').
Proof.
  unfold bind. destruct (m b) as [[a | e] b1]; intros Hk.
  - exists a, b1. split; [reflexivity | exact Hk].
  - discriminate Hk.
Qed.

Lemma bind_thrown_l {B A C} (m : M B A) (k : A -> M B C) b e b' :
  m b = (Thrown e, b') -> bind m k b = (Thrown e, b').
Proof. unfold bind. intros ->. reflexivity. Qed.

Lemma bind_step {B A C} (m : M B A) (k : A -> M B C) b a b1 :
  m b = (Returned a, b1) -> bind m k b = k a b1.
Proof. unfold bind. intros ->. reflexivity. Qed.

Section BusyWait.
Context {B : Type} {bar2 : RegisterReadWriteInterface B}.
Variable self : Sca.

Lemma busyPolls_length n : forall b, List.length (busyPolls self n b) = n.
Proof.
  induction n as [| n IH]; intros b; cbn [busyPolls]; [reflexivity |].
  destruct (readRegister b (busyIndex self)) as [v b']. cbn. now rewrite IH.
Qed.

Lemma busyPolls_firstn k : forall n b,
  (k <= n)%nat -> firstn k (busyPolls self n b) = busyPolls self k b.
Proof.
  induction k as [| k IH]; intros n b Hk; [reflexivity |].
  destruct n as [| n]; [lia |]. cbn [busyPolls].
  destruct (readRegister b (busyIndex self)) as [v b']. cbn [firstn].
  f_equal. apply IH. lia.
Qed.

Lemma waitOnBusyClear_loop_unfold n b :
  waitOnBusyClear_loop self (S n) b =
  let (v, b') := readRegister b (busyIndex self) in
  if v =? 0 then (Returned tt, b') else waitOnBusyClear_loop self n b'.
Proof.
  cbn [waitOnBusyClear_loop]. unfold bind, barRead, busyIndex.
  destruct (readRegister b (Registers.BUSY + offset self)) as [v b'].
  destruct (v =? 0); reflexivity.
Qed.

(** BUSY never reads zero in [n] polls: the loop runs out and throws. *)
Lemma waitOnBusyClear_loop_timeout n : forall b,
  Forall nonzero (busyPolls self n b) ->
  waitOnBusyClear_loop self n b = (Thrown timeoutError, afterPolls self n b).
Proof.
  induction n as [| n IH]; intros b Hall; [reflexivity |].
  rewrite waitOnBusyClear_loop_unfold. cbn [busyPolls afterPolls] in *.
  destruct (readRegister b (busyIndex self)) as [v b']. cbn [snd].
  inversion Hall as [| ? ? Hv Hrest]; subst.
  destruct (Z.eqb_spec v 0) as [Hz | _]; [contradiction |].
  apply IH. exact Hrest.
Qed.

(** BUSY first reads zero at poll [k] (counted from 0): the loop returns
    after [k + 1] polls. *)
Lemma waitOnBusyClear_loop_clear k : forall n b,
  nth_error (busyPolls self n b) k = Some 0 ->
  Forall nonzero (firstn k (busyPolls self n b)) ->
  waitOnBusyClear_loop self n b = (Returned tt, afterPolls self (S k) b).
Proof.
  induction k as [| k IH]; intros [| n] b Hk Hbefore;
    try (cbn in Hk; discriminate Hk);
    rewrite waitOnBusyClear_loop_unfold; cbn [busyPolls afterPolls] in *;
    destruct (readRegister b (busyIndex self)) as [v b'];
    cbn [snd nth_error firstn] in *.
  - injection Hk as ->. reflexivity.
  - inversion Hbefore as [| ? ? Hv Hrest]; subst.
    destruct (Z.eqb_spec v 0) as [Hz | _]; [contradiction |].
    apply (IH n b' Hk Hrest).
Qed.

(** Conversely: the loop's outcome tells what was read. *)
Lemma waitOnBusyClear_loop_thrown n : forall b e b',
  waitOnBusyClear_loop self n b = (Thrown e, b') ->
  e = timeoutError /\ b' = afterPolls self n b
  /\ Forall nonzero (busyPolls self n b).
Proof.
  induction n as [| n IH]; intros b e b' Hrun.
  - cbn in Hrun. injection Hrun as <- <-. repeat split. constructor.
  - rewrite waitOnBusyClear_loop_unfold in Hrun. cbn [busyPolls afterPolls].
    destruct (readRegister b (busyIndex self)) as [v b1]. cbn [snd].
    destruct (Z.eqb_spec v 0) as [Hz | Hnz]; [discriminate Hrun |].
    destruct (IH _ _ _ Hrun) as (He & Hb & Hall).
    repeat split; try assumption. constructor; assumption.
Qed.

Lemma waitOnBusyClear_loop_returned n : forall b u b',
  waitOnBusyClear_loop self n b = (Returned u, b') ->
  exists k, (k < n)%nat /\ b' = afterPolls self (S k) b
            /\ nth_error (busyPolls self n b) k = Some 0
            /\ Forall nonzero (firstn k (busyPolls self n b)).
Proof.
  induction n as [| n IH]; intros b u b' Hrun.
  - cbn in Hrun. discriminate Hrun.
  - rewrite waitOnBusyClear_loop_unfold in Hrun. cbn [busyPolls afterPolls].
    destruct (readRegister b (busyIndex self)) as [v b1] eqn:Hread.
    destruct (Z.eqb_spec v 0) as [Hz | Hnz].
    + injection Hrun as _ <-. exists 0%nat. cbn [afterPolls snd].
      subst v. repeat split; try lia. constructor.
    + destruct (IH _ _ _ Hrun) as (k & Hk & Hb & Hnth & Hall).
      exists (S k). cbn [afterPolls nth_error firstn snd].
      repeat split; try assumption; try lia. constructor; assumption.
Qed.

Lemma write_unfold command data (b : B) :
  write self command data b =
  waitOnBusyClear self (afterWriteRegisters self command data b).
Proof. reflexivity. Qed.

Lemma init_unfold (b : B) :
  init self b =
  bind (waitOnBusyClear self)
    (fun _ => bind (barWrite self Registers.CONTROL 0x2)
    (fun _ => bind (waitOnBusyClear self)
    (fun _ => bind (barWrite self Registers.CONTROL 0x1)
    (fun _ => bind (waitOnBusyClear self)
    (fun _ => barWrite self Registers.CONTROL 0x0)))))
    (writeRegister b (Registers.CONTROL + offset self) 0x1).
Proof. reflexivity. Qed.

End BusyWait.

(** On a recording device the polls are exactly what the tape gains. *)
Section BusyWaitTape.
Context {B : Type} {bar2 : RegisterReadWriteInterface B}.
Variable self : Sca.

Lemma tape_afterPolls n : forall r : Recorder B,
  tape (afterPolls self n r) = tape r ++ busyReads self (busyPolls self n r).
Proof.
  induction n as [| n IH]; intros r; cbn [afterPolls busyPolls].
  - cbn. now rewrite app_nil_r.
  - cbn [readRegister Recorder_bar].
    destruct (readRegister (inner r) (busyIndex self)) as [v b'].
    cbn [snd]. rewrite IH. cbn [tape busyReads map].
    now rewrite <- app_assoc.
Qed.

Lemma tape_afterWriteRegisters command data (r : Recorder B) :
  tape (afterWriteRegisters self command data r) =
  tape r ++ writeRegisters self command data.
Proof.
  unfold afterWriteRegisters, writeRegisters. cbn [writeRegister Recorder_bar tape].
  now rewrite <- !app_assoc.
Qed.

End BusyWaitTape.

(** *** Decoding the error flags *)

Lemma append_assoc (s1 s2 s3 : string) :
  ((s1 ++ s2) ++ s3 = s1 ++ (s2 ++ s3))%string.
Proof. induction s1 as [| a s1 IH]; cbn; [reflexivity | now rewrite IH]. Qed.

Lemma append_nil_r (s : string) : (s ++ "" = s)%string.
Proof. induction s as [| a s IH]; cbn; [reflexivity | now rewrite IH]. Qed.

Lemma collectFlags_filter errorCode n : forall flag flags,
  collectFlags errorCode n flag flags =
  flags ++ filter (fun f => Utilities.getBit errorCode f =? 1) (zrange flag n).
Proof.
  induction n as [| n IH]; intros flag flags; cbn [collectFlags zrange filter].
  - now rewrite app_nil_r.
  - rewrite IH. destruct (Utilities.getBit errorCode flag =? 1).
    + now rewrite <- app_assoc.
    + reflexivity.
Qed.

Lemma lowByte_testbit command i :
  0 <= i <= 7 -> Z.testbit (Z.land command 0xff) i = Z.testbit command i.
Proof.
  intros Hi. rewrite Z.land_spec.
  assert (Hcases : i = 0 \/ i = 1 \/ i = 2 \/ i = 3 \/ i = 4 \/ i = 5
                   \/ i = 6 \/ i = 7) by lia.
  destruct Hcases as [-> | [-> | [-> | [-> | [-> | [-> | [-> | ->]]]]]]];
    cbn; apply andb_true_r.
Qed.

Lemma collectFlags_decoded command :
  collectFlags (Z.land command 0xff) 7 0 [] = decodedFlags command.
Proof.
  rewrite collectFlags_filter. cbn [app zrange Z.add Pos.add Pos.succ].
  unfold decodedFlags. apply filter_ext_in. intros f Hf.
  assert (Hr : 0 <= f <= 6) by (cbn in Hf; lia).
  rewrite UtilitiesFacts.getBit_testbit by lia. apply lowByte_testbit. lia.
Qed.

Lemma decodedFlags_lowByte command :
  decodedFlags (Z.land command 0xff) = decodedFlags command.
Proof.
  unfold decodedFlags. apply filter_ext_in. intros f Hf.
  apply lowByte_testbit. cbn in Hf. lia.
Qed.

Lemma decodedFlags_In command i :
  In i (decodedFlags command) <-> 0 <= i <= 6 /\ Z.testbit command i = true.
Proof.
  unfold decodedFlags. rewrite filter_In. cbn [In]. split.
  - intros [Hin Hb]. split; [lia | exact Hb].
  - intros [Hr Hb]. split; [lia | exact Hb].
Qed.

Lemma decodedFlags_sorted command :
  StronglySorted Z.lt (decodedFlags command).
Proof.
  unfold decodedFlags. cbn [filter].
  repeat match goal with
         | |- context [if ?c then _ else _] => destruct c
         end;
    repeat (constructor; [| repeat (constructor; try lia)]); constructor.
Qed.

Lemma skipn_nth {A} (l : list A) (d : A) : forall i,
  (i < List.length l)%nat -> skipn i l = nth i l d :: skipn (S i) l.
Proof.
  induction l as [| x l IH]; intros i Hi; cbn in Hi; [lia |].
  destruct i as [| i]; [reflexivity |].
  cbn [skipn nth]. apply IH. lia.
Qed.

(** The loop that builds the message: its guard [i < flags.size()] holds at
    every iteration, so every name is followed by the separator. *)
Lemma streamFlags_named flags n : forall i stream,
  (i + n = List.length flags)%nat ->
  streamFlags flags n i stream =
  (stream ++ joinAll (map named (skipn i flags)))%string.
Proof.
  induction n as [| n IH]; intros i stream Hlen; cbn [streamFlags].
  - rewrite skipn_all2 by lia. cbn. now rewrite append_nil_r.
  - assert (Hi : (i < List.length flags)%nat) by lia.
    apply Nat.ltb_lt in Hi as Hguard. rewrite Hguard.
    rewrite IH by lia.
    rewrite (skipn_nth flags 0 i Hi).
    cbn [map joinAll fold_right]. unfold named at 2.
    now rewrite !append_assoc.
Qed.

Lemma errorMessage_named errorCode flags :
  errorMessage errorCode flags =
  (header errorCode ++ joinAll (map named flags))%string.
Proof.
  unfold errorMessage. rewrite streamFlags_named by lia. reflexivity.
Qed.

Lemma checkError_unfold {B} command (b : B) :
  checkError command b =
  (match decodedFlags command with
   | [] => Returned tt
   | _ :: _ =>
       Thrown (mkScaException
                 (errorMessage (Z.land command 0xff) (decodedFlags command)))
   end, b).
Proof.
  unfold checkError. rewrite collectFlags_decoded.
  destruct (decodedFlags command); reflexivity.
Qed.

Lemma joinAll_named_concat flag flags :
  joinAll (map named (flag :: flags)) =
  (String.concat ", " (map toString (flag :: flags)) ++ ", ")%string.
Proof.
  revert flag. induction flags as [| g flags IH]; intros flag.
  - cbn. unfold named. now rewrite append_nil_r.
  - change (joinAll (map named (flag :: g :: flags)))
      with (named flag ++ joinAll (map named (g :: flags)))%string.
    rewrite IH. unfold named.
    change (String.concat ", " (map toString (flag :: g :: flags)))
      with (toString flag ++ ", "
            ++ String.concat ", " (map toString (g :: flags)))%string.
    now rewrite !append_assoc.
Qed.

Lemma checkError_thrown {B} command (b : B) e :
  fst (checkError command b) = Thrown e ->
  decodedFlags command <> []
  /\ Message e = errorMessage (Z.land command 0xff) (decodedFlags command).
Proof.
  rewrite checkError_unfold. cbn [fst].
  destruct (decodedFlags command) as [| f fs]; intros He.
  - discriminate He.
  - injection He as <-. split; [discriminate | reflexivity].
Qed.

(** C3.  [checkError] throws exactly when one of bits 0..6 of the low byte of
    the command word is set.  The message of the thrown error is the header
    followed by the names of the decoded flags; the decoded flags are the set
    bits among 0..6 in strictly ascending order.  A word whose decoded flags
    are 1 and 4 yields "invalid channel request" and then "invalid length". *)
Theorem checkError_raises_iff_flag_set {B} (command : Z) (b : B) :
  ((exists e, fst (checkError command b) = Thrown e) <->
   (exists i, 0 <= i <= 6 /\ Z.testbit (Z.land command 0xff) i = true))
  /\ (forall e, fst (checkError command b) = Thrown e ->
      Message e = (header (Z.land command 0xff)
                   ++ joinAll (map named (decodedFlags command)))%string
      /\ StronglySorted Z.lt (decodedFlags command)
      /\ (forall i, In i (decodedFlags command) <->
                    0 <= i <= 6 /\ Z.testbit (Z.land command 0xff) i = true))
  /\ (decodedFlags command = [1; 4] ->
      fst (checkError command b) =
      Thrown (mkScaException
                ("error code 0x" ++ showUInt (Z.land command 0xff)
                 ++ ": invalid channel request, invalid length, "))).
Proof.
  assert (Hin : forall i, In i (decodedFlags command) <->
                  0 <= i <= 6 /\ Z.testbit (Z.land command 0xff) i = true).
  { intros i. rewrite decodedFlags_In. split; intros [Hr Hb]; split;
      try exact Hr; rewrite lowByte_testbit in *; try assumption; lia. }
  split; [| split].
  - split.
    + intros [e He]. apply checkError_thrown in He as [Hne _].
      destruct (decodedFlags command) as [| i fs] eqn:Hfl; [congruence |].
      exists i. apply Hin. now left.
    + intros [i Hi]. apply Hin in Hi. rewrite checkError_unfold. cbn [fst].
      destruct (decodedFlags command) as [| f fs]; [destruct Hi |].
      eexists. reflexivity.
  - intros e He. apply checkError_thrown in He as [_ Hmsg].
    rewrite Hmsg, errorMessage_named.
    split; [reflexivity | split; [apply decodedFlags_sorted | exact Hin]].
  - intros Hfl. rewrite checkError_unfold, Hfl. cbn [fst].
    rewrite errorMessage_named. unfold header.
    rewrite !append_assoc. reflexivity.
Qed.

(** C10.  Whenever [checkError] throws, every decoded flag name in the message
    is followed by ", ", the last one too: the message is the header, the
    names joined by ", ", and one more ", " at the end. *)
Theorem checkError_trailing_separator {B} (command : Z) (b : B) e :
  fst (checkError command b) = Thrown e ->
  Message e = (header (Z.land command 0xff)
               ++ joinAll (map named (decodedFlags command)))%string
  /\ Message e = (header (Z.land command 0xff)
                  ++ String.concat ", " (map toString (decodedFlags command))
                  ++ ", ")%string.
Proof.
  intros He. apply checkError_thrown in He as [Hne Hmsg].
  rewrite Hmsg, errorMessage_named. split; [reflexivity |].
  destruct (decodedFlags command) as [| f fs]; [congruence |].
  now rewrite joinAll_named_concat.
Qed.

Lemma checkError_trailing_separator_witness :
  fst (checkError 0x12 tt) =
    Thrown (mkScaException
              "error code 0x18: invalid channel request, invalid length, ")
  /\ "error code 0x18: invalid channel request, invalid length, " =
     (header (Z.land 0x12 0xff)
      ++ String.concat ", " (map toString (decodedFlags 0x12)) ++ ", ")%string.
Proof.
  split; [reflexivity |].
  exact (proj2 (checkError_trailing_separator 0x12 tt
                  (mkScaException
                     "error code 0x18: invalid channel request, invalid length, ")
                  eq_refl)).
Defined.

(** *** The channel-busy test *)

Lemma lowByte_bits_eq command :
  Z.land command 0xff = 0x40 <->
  (forall i, 0 <= i <= 7 -> Z.testbit command i = Z.testbit 0x40 i).
Proof.
  split.
  - intros Heq i Hi. rewrite <- (lowByte_testbit command i Hi), Heq. reflexivity.
  - intros Hbits. apply Z.bits_inj'. intros i Hi.
    destruct (Z_le_gt_dec i 7) as [Hle | Hgt].
    + rewrite lowByte_testbit by lia. apply Hbits. lia.
    + rewrite Z.land_spec.
      change 0xff with (Z.ones 8). rewrite Z.ones_spec_high by lia.
      rewrite andb_false_r. symmetry.
      apply (Z.bits_above_log2 0x40 i); cbn; lia.
Qed.

(** C6, the claim as stated: busy exactly when bit 6 is set, whatever the
    other low-byte bits.  The word 0x41 has bit 6 set and is not busy. *)
Lemma isChannelBusy_not_bit6_alone :
  ~ (forall command, 0 <= command < 2 ^ 32 ->
       isChannelBusy command = Z.testbit command 6).
Proof.
  intros Hclaim. specialize (Hclaim 0x41 ltac:(lia)). discriminate Hclaim.
Qed.

(** C6, amended.  [isChannelBusy] holds exactly when the low byte of the
    command word equals 0x40: bit 6 is set and bits 0..5 and 7 are clear.  The
    upper 24 bits play no part. *)
Theorem isChannelBusy_lowByte_is_0x40 (command : Z) :
  (isChannelBusy command = true <->
   Z.testbit command 6 = true
   /\ forall i, 0 <= i <= 7 -> i <> 6 -> Z.testbit command i = false)
  /\ isChannelBusy command = isChannelBusy (Z.land command 0xff).
Proof.
  unfold isChannelBusy. split.
  - rewrite Z.eqb_eq, lowByte_bits_eq. split.
    + intros Hbits. split.
      * rewrite Hbits by lia. reflexivity.
      * intros i Hi Hne. rewrite Hbits by lia.
        assert (Hc : i = 0 \/ i = 1 \/ i = 2 \/ i = 3 \/ i = 4 \/ i = 5 \/ i = 7)
          by lia.
        destruct Hc as [-> | [-> | [-> | [-> | [-> | [-> | ->]]]]]]; reflexivity.
    + intros [H6 Hother] i Hi. destruct (Z.eq_dec i 6) as [-> | Hne].
      * rewrite H6. reflexivity.
      * rewrite Hother by assumption.
        assert (Hc : i = 0 \/ i = 1 \/ i = 2 \/ i = 3 \/ i = 4 \/ i = 5 \/ i = 7)
          by lia.
        destruct Hc as [-> | [-> | [-> | [-> | [-> | [-> | ->]]]]]]; reflexivity.
  - rewrite <- Z.land_assoc. reflexivity.
Qed.

(** *** The busy-wait and its budget *)

Section BusyWaitBudget.
Context {B : Type} {bar2 : RegisterReadWriteInterface B}.
Variable self : Sca.

(** C1.  On any device, seen through a recorder: let [polls] be what the
    next 10,000 reads of BUSY return.  (1) If none of them is zero,
    [waitOnBusyClear] throws the timeout error and the tape has gained
    exactly those 10,000 BUSY reads.  (2) If poll [k] is the first zero, it
    returns normally after [k + 1] reads; (3) a zero at any of the polls
    makes it return.  (4) It throws in no other way.  (5, 6) The same timeout
    is what [write] (through [executeCommand]) and [init] (at its first wait)
    raise when BUSY stays non-zero after their register writes. *)
Theorem waitOnBusyClear_budget_exact (r : Recorder B) :
  let polls := busyPolls self budget r in
  (Forall nonzero polls ->
   exists r', waitOnBusyClear self r = (Thrown timeoutError, r')
     /\ tape r' = tape r ++ busyReads self polls
     /\ Z.of_nat (List.length polls) = MAX_BUSY_ITERATIONS)
  /\ (forall k, nth_error polls k = Some 0 -> Forall nonzero (firstn k polls) ->
      exists r', waitOnBusyClear self r = (Returned tt, r')
        /\ tape r' = tape r ++ busyReads self (firstn (S k) polls)
        /\ List.length (firstn (S k) polls) = S k
        /\ Z.of_nat (S k) <= MAX_BUSY_ITERATIONS)
  /\ (forall k, nth_error polls k = Some 0 ->
      exists r', waitOnBusyClear self r = (Returned tt, r'))
  /\ (forall e r', waitOnBusyClear self r = (Thrown e, r') ->
      e = timeoutError /\ Forall nonzero polls
      /\ tape r' = tape r ++ busyReads self polls)
  /\ (forall command data,
      let started := afterWriteRegisters self command data r in
      Forall nonzero (busyPolls self budget started) ->
      exists r', write self command data r = (Thrown timeoutError, r')
        /\ tape r' = tape r ++ writeRegisters self command data
                       ++ busyReads self (busyPolls self budget started))
  /\ (let started := writeRegister r (Registers.CONTROL + offset self) 0x1 in
      Forall nonzero (busyPolls self budget started) ->
      exists r', init self r = (Thrown timeoutError, r')
        /\ tape r' = tape r ++ [EvWrite (Registers.CONTROL + offset self) 0x1]
                       ++ busyReads self (busyPolls self budget started)).
Proof.
  intros polls. unfold waitOnBusyClear. fold budget.
  assert (Hlen : List.length polls = budget) by apply busyPolls_length.
  split; [| split; [| split; [| split; [| split]]]].
  - intros Hall. exists (afterPolls self budget r). repeat split.
    + apply waitOnBusyClear_loop_timeout. exact Hall.
    + apply tape_afterPolls.
    + rewrite Hlen. apply budget_value.
  - intros k Hk Hbefore.
    assert (Hlt : (k < budget)%nat).
    { rewrite <- Hlen. apply nth_error_Some. rewrite Hk. discriminate. }
    exists (afterPolls self (S k) r). repeat split.
    + apply waitOnBusyClear_loop_clear; assumption.
    + rewrite tape_afterPolls. unfold polls.
      rewrite busyPolls_firstn by lia. reflexivity.
    + rewrite length_firstn, Hlen. lia.
    + pose proof budget_value. unfold MAX_BUSY_ITERATIONS. lia.
  - intros k Hk.
    destruct (waitOnBusyClear_loop self budget r) as [[[] | e] r'] eqn:Hrun;
      [exists r'; reflexivity |].
    apply waitOnBusyClear_loop_thrown in Hrun as (_ & _ & Hall).
    apply nth_error_In in Hk. rewrite Forall_forall in Hall.
    exfalso. apply (Hall 0 Hk). reflexivity.
  - intros e r' Hrun.
    destruct (waitOnBusyClear_loop_thrown self _ _ _ _ Hrun) as (He & -> & Hall).
    repeat split; try assumption. apply tape_afterPolls.
  - cbv zeta. intros command data Hall.
    exists (afterPolls self budget (afterWriteRegisters self command data r)).
    split.
    + rewrite write_unfold. apply waitOnBusyClear_loop_timeout. exact Hall.
    + rewrite tape_afterPolls, tape_afterWriteRegisters, <- app_assoc.
      reflexivity.
  - cbv zeta. intros Hall.
    eexists. split.
    + rewrite init_unfold. apply bind_thrown_l.
      apply waitOnBusyClear_loop_timeout. exact Hall.
    + rewrite tape_afterPolls.
      cbn [writeRegister Recorder_bar tape]. rewrite <- app_assoc. reflexivity.
Qed.

End BusyWaitBudget.

(** *** [Sca::read] *)

Lemma readBusyPolls_busy n command :
  isChannelBusy command = true -> readBusyPolls n command = n.
Proof.
  intros Hbusy. induction n as [| n IH]; cbn [readBusyPolls]; [reflexivity |].
  rewrite Hbusy. cbn [negb]. now rewrite IH.
Qed.

Lemma readBusyPolls_clear n command :
  isChannelBusy command = false -> readBusyPolls (S n) command = 1%nat.
Proof. intros Hclear. cbn [readBusyPolls]. now rewrite Hclear. Qed.

Lemma readBusyPolls_le n command : (readBusyPolls n command <= n)%nat.
Proof.
  destruct (isChannelBusy command) eqn:Hbusy.
  - rewrite readBusyPolls_busy by assumption. lia.
  - destruct n as [| n]; [cbn; lia |].
    rewrite readBusyPolls_clear by assumption. lia.
Qed.

Lemma budget_positive : exists n, budget = S n.
Proof. exists (Nat.pred budget). reflexivity. Qed.

Lemma busy_decodedFlags command :
  isChannelBusy command = true ->
  Z.land command 0xff = 0x40 /\ decodedFlags command = [6].
Proof.
  unfold isChannelBusy. rewrite Z.eqb_eq. intros Hlow. split; [exact Hlow |].
  rewrite <- decodedFlags_lowByte, Hlow. reflexivity.
Qed.

Lemma errorMessage_not_timeout errorCode flags :
  mkScaException (errorMessage errorCode flags) <> timeoutError.
Proof.
  rewrite errorMessage_named. unfold header, timeoutError. cbn [String.append].
  intros Heq. discriminate Heq.
Qed.

Section ReadUnfold.
Context {B : Type} {bar2 : RegisterReadWriteInterface B}.
Variable self : Sca.

Lemma read_unfold (b : B) :
  read self b =
  let (d, b1) := readRegister b (Registers.READ_DATA + offset self) in
  let (c, b2) := readRegister b1 (Registers.READ_COMMAND + offset self) in
  (match fst (checkError c b2) with
   | Returned _ => Returned (mkReadResult c d)
   | Thrown e => Thrown e
   end, b2).
Proof.
  unfold read, bind, barRead.
  destruct (readRegister b (Registers.READ_DATA + offset self)) as [d b1].
  destruct (readRegister b1 (Registers.READ_COMMAND + offset self)) as [c b2].
  rewrite checkError_unfold. cbn [fst].
  destruct (decodedFlags c); reflexivity.
Qed.

End ReadUnfold.

Section Read.
Context {B : Type} {bar2 : RegisterReadWriteInterface B}.
Variable self : Sca.

(** C2.  [read] reads READ_DATA, then READ_COMMAND, and touches no other
    register.  Its poll of the command word runs at most 10,000 times: once
    when the word is not busy, all 10,000 times when it is.  Whatever the
    poll did, the outcome of [read] is the outcome of [checkError] on the
    command word (with the pair when that returns), never the timeout error;
    after an exhausted poll it is the "channel busy" protocol error. *)
Theorem read_poll_never_times_out (r : Recorder B) :
  exists d r1 c r2,
    readRegister r (Registers.READ_DATA + offset self) = (d, r1)
    /\ readRegister r1 (Registers.READ_COMMAND + offset self) = (c, r2)
    /\ tape r2 = tape r ++ [EvRead (Registers.READ_DATA + offset self) d;
                            EvRead (Registers.READ_COMMAND + offset self) c]
    /\ snd (read self r) = r2
    /\ Z.of_nat (readBusyPolls budget c) <= MAX_BUSY_ITERATIONS
    /\ (isChannelBusy c = false -> readBusyPolls budget c = 1%nat)
    /\ (isChannelBusy c = true ->
        Z.of_nat (readBusyPolls budget c) = MAX_BUSY_ITERATIONS
        /\ fst (read self r) =
           Thrown (mkScaException "error code 0x64: channel busy, "))
    /\ fst (read self r) =
       match fst (checkError c r2) with
       | Returned _ => Returned (mkReadResult c d)
       | Thrown e => Thrown e
       end
    /\ fst (read self r) <> Thrown timeoutError.
Proof.
  pose proof (read_unfold self r) as Hread.
  destruct (readRegister r (Registers.READ_DATA + offset self)) as [d r1] eqn:Hd.
  destruct (readRegister r1 (Registers.READ_COMMAND + offset self))
    as [c r2] eqn:Hc.
  exists d, r1, c, r2. rewrite Hread. cbn [fst snd].
  split; [reflexivity || exact Hd | split; [reflexivity || exact Hc |]].
  split.
  { cbn [readRegister Recorder_bar] in Hd, Hc.
    destruct (readRegister (inner r) (Registers.READ_DATA + offset self))
      as [d' b1].
    injection Hd as <- <-. cbn [inner tape] in Hc.
    destruct (readRegister b1 (Registers.READ_COMMAND + offset self))
      as [c' b2].
    injection Hc as <- <-. cbn [tape]. now rewrite <- app_assoc. }
  split; [reflexivity |].
  split.
  { pose proof (readBusyPolls_le budget c). pose proof budget_value.
    unfold MAX_BUSY_ITERATIONS. lia. }
  split.
  { intros Hclear. destruct budget_positive as [n ->].
    now apply readBusyPolls_clear. }
  split.
  { intros Hbusy. split.
    - rewrite readBusyPolls_busy by assumption. apply budget_value.
    - rewrite checkError_unfold. cbn [fst].
      destruct (busy_decodedFlags c Hbusy) as [-> ->]. reflexivity. }
  split; [reflexivity |].
  rewrite checkError_unfold. cbn [fst].
  destruct (decodedFlags c) as [| f fs]; [discriminate |].
  intros Heq. injection Heq as Heq.
  apply (errorMessage_not_timeout (Z.land c 0xff) (f :: fs)).
  now rewrite Heq.
Qed.

End Read.

(** *** The sequence of steps a run performs *)

Lemma cleanStart_app busy t1 t2 :
  cleanStart busy t1 = true -> cleanStart busy t2 = true ->
  cleanStart busy (t1 ++ t2) = true.
Proof. destruct t1 as [| ev t1]; cbn; auto. Qed.

Lemma steps_app busy t1 t2 :
  cleanStart busy t2 = true ->
  steps busy (t1 ++ t2) = steps busy t1 ++ steps busy t2.
Proof.
  intros Hclean. induction t1 as [| ev t1 IH]; [reflexivity |].
  destruct ev as [index v | index v]; cbn [app steps].
  - destruct (index =? busy).
    + assert (Hsame : cleanStart busy (t1 ++ t2) = cleanStart busy t1).
      { destruct t1 as [| ev' t1']; [exact Hclean | reflexivity]. }
      rewrite Hsame, IH. destruct (cleanStart busy t1); reflexivity.
    + rewrite IH. reflexivity.
  - rewrite IH. reflexivity.
Qed.

Lemma steps_busyReads busy values :
  values <> [] -> steps busy (map (EvRead busy) values) = [StepWaitNotBusy].
Proof.
  induction values as [| v values IH]; intros Hne; [congruence |].
  cbn [map steps]. rewrite Z.eqb_refl.
  destruct values as [| w values]; [reflexivity |].
  cbn [map cleanStart isBusyRead]. rewrite Z.eqb_refl. cbn [negb].
  apply IH. discriminate.
Qed.

Section Steps.
Context {B : Type} {bar2 : RegisterReadWriteInterface B}.
Variable self : Sca.

Lemma prefixClosed_anyEvents {A} : prefixClosed (@anyEvents A).
Proof. intros a t1 t2 _. exact I. Qed.

Lemma prefixClosed_lastRead : prefixClosed (lastRead self).
Proof.
  intros res t1 t2 [front ->]. exists (t1 ++ front). now rewrite app_assoc.
Qed.

Lemma Emits_seq {A C} (m : M (Recorder B) A) (k : A -> M (Recorder B) C)
  s1 s2 Q1 Q2 :
  Emits self m s1 Q1 -> (forall a, Emits self (k a) s2 Q2) -> prefixClosed Q2 ->
  Emits self (bind m k) (s1 ++ s2) Q2.
Proof.
  intros Hm Hk Hclosed r c r' Hrun.
  apply bind_returned in Hrun as (a & r1 & Hrun1 & Hrun2).
  destruct (Hm _ _ _ Hrun1) as (t1 & Htape1 & Hclean1 & Hsteps1 & _).
  destruct (Hk a _ _ _ Hrun2) as (t2 & Htape2 & Hclean2 & Hsteps2 & HQ).
  exists (t1 ++ t2). repeat split.
  - rewrite Htape2, Htape1. now rewrite app_assoc.
  - now apply cleanStart_app.
  - rewrite steps_app by assumption. now rewrite Hsteps1, Hsteps2.
  - now apply Hclosed.
Qed.

Lemma Emits_ret {A} (a : A) : Emits (B:=B) self (ret a) [] anyEvents.
Proof.
  intros r a' r' Hrun. injection Hrun as <- <-.
  exists []. rewrite app_nil_r. repeat split.
Qed.

Lemma Emits_steps_eq {A} (m : M (Recorder B) A) s s' Q :
  Emits self m s Q -> s = s' -> Emits self m s' Q.
Proof. intros Hm <-. exact Hm. Qed.

Lemma reg_not_busy index :
  index <> Registers.BUSY -> (index + offset self =? busyIndex self) = false.
Proof. intros Hne. apply Z.eqb_neq. unfold busyIndex. lia. Qed.

Lemma waitOnBusyClear_returned_tape (r : Recorder B) u r' :
  waitOnBusyClear self r = (Returned u, r') ->
  exists polls, polls <> [] /\ tape r' = tape r ++ busyReads self polls.
Proof.
  intros Hrun. apply waitOnBusyClear_loop_returned in Hrun
    as (k & _ & -> & _ & _).
  exists (busyPolls self (S k) r). split.
  - intros Hnil. apply (f_equal (@List.length Z)) in Hnil.
    rewrite busyPolls_length in Hnil. discriminate Hnil.
  - apply tape_afterPolls.
Qed.

Lemma Emits_barWrite index value :
  Emits self (barWrite self index value) [StepWrite (index + offset self) value]
        anyEvents.
Proof.
  intros r a r' Hrun. injection Hrun as _ <-.
  exists [EvWrite (index + offset self) value]. repeat split.
Qed.

(** A register write followed by a wait. *)
Lemma Emits_barWrite_wait index value :
  Emits self (bind (barWrite self index value) (fun _ => waitOnBusyClear self))
        [StepWrite (index + offset self) value; StepWaitNotBusy] anyEvents.
Proof.
  intros r a r' Hrun. apply bind_returned in Hrun as (u & r1 & Hw & Hwait).
  injection Hw as _ <-.
  apply waitOnBusyClear_returned_tape in Hwait as (polls & Hne & Htape).
  exists ([EvWrite (index + offset self) value] ++ busyReads self polls).
  repeat split.
  - rewrite Htape. cbn [writeRegister Recorder_bar tape].
    now rewrite <- app_assoc.
  - cbn [app steps]. unfold busyReads.
    now rewrite steps_busyReads.
Qed.

Lemma Emits_write command data :
  Emits self (write self command data) (writeSteps self command data) anyEvents.
Proof.
  intros r a r' Hrun. rewrite write_unfold in Hrun.
  apply waitOnBusyClear_returned_tape in Hrun as (polls & Hne & Htape).
  exists (writeRegisters self command data ++ busyReads self polls).
  repeat split.
  - rewrite Htape, tape_afterWriteRegisters. now rewrite <- app_assoc.
  - unfold writeRegisters. cbn [app steps]. unfold busyReads.
    now rewrite steps_busyReads.
Qed.

Lemma Emits_read : Emits self (read self) (readSteps self) (lastRead self).
Proof.
  intros r res r' Hrun. rewrite read_unfold in Hrun.
  cbn [readRegister Recorder_bar] in Hrun.
  destruct (readRegister (inner r) (Registers.READ_DATA + offset self))
    as [d b1].
  cbn [inner tape] in Hrun.
  destruct (readRegister b1 (Registers.READ_COMMAND + offset self)) as [c b2].
  destruct (fst (checkError c _)); [| discriminate Hrun].
  injection Hrun as <- <-. cbn [tape data command].
  exists [EvRead (Registers.READ_DATA + offset self) d;
          EvRead (Registers.READ_COMMAND + offset self) c].
  repeat split.
  - now rewrite <- app_assoc.
  - cbn [cleanStart isBusyRead]. rewrite reg_not_busy by discriminate.
    reflexivity.
  - cbn [steps]. rewrite !reg_not_busy by discriminate. reflexivity.
  - exists []. reflexivity.
Qed.

Lemma bind_assoc {S A C D} (m : M S A) (k : A -> M S C) (h : C -> M S D) b :
  bind (bind m k) h b = bind m (fun a => bind (k a) h) b.
Proof.
  unfold bind. destruct (m b) as [[a | e] b1]; reflexivity.
Qed.

Lemma Emits_ext {A} (m m' : M (Recorder B) A) s Q :
  (forall r, m r = m' r) -> Emits self m' s Q -> Emits self m s Q.
Proof. intros Hext Hm r a r' Hrun. rewrite Hext in Hrun. eauto. Qed.

Lemma Emits_init : Emits self (init self) (initSteps self) anyEvents.
Proof.
  apply (Emits_ext _
    (bind (bind (barWrite self Registers.CONTROL 0x1)
                (fun _ => waitOnBusyClear self))
    (fun _ => bind (bind (barWrite self Registers.CONTROL 0x2)
                         (fun _ => waitOnBusyClear self))
    (fun _ => bind (bind (barWrite self Registers.CONTROL 0x1)
                         (fun _ => waitOnBusyClear self))
    (fun _ => barWrite self Registers.CONTROL 0x0))))).
  - intros r. unfold init. rewrite !bind_assoc. reflexivity.
  - eapply Emits_steps_eq.
    + eapply Emits_seq; [apply Emits_barWrite_wait | intros _ |
                         apply prefixClosed_anyEvents].
      eapply Emits_seq; [apply Emits_barWrite_wait | intros _ |
                         apply prefixClosed_anyEvents].
      eapply Emits_seq; [apply Emits_barWrite_wait | intros _ |
                         apply prefixClosed_anyEvents].
      apply Emits_barWrite.
    + reflexivity.
Qed.

Ltac emits_seq first :=
  eapply Emits_seq;
  [ apply first | intros _
  | first [apply prefixClosed_anyEvents | apply prefixClosed_lastRead] ].

Lemma Emits_gpioEnable :
  Emits self (gpioEnable self) (gpioEnableSteps self) anyEvents.
Proof.
  unfold gpioEnable. eapply Emits_steps_eq.
  - emits_seq Emits_write. emits_seq Emits_read.
    emits_seq Emits_write. emits_seq Emits_read.
    emits_seq Emits_write.
    emits_seq Emits_write. emits_seq Emits_read.
    apply Emits_ret.
  - reflexivity.
Qed.

Lemma Emits_initialize :
  Emits self (initialize self) (initializeSteps self) anyEvents.
Proof.
  unfold initialize. emits_seq Emits_init. apply Emits_gpioEnable.
Qed.

Lemma Emits_gpioWrite data :
  Emits self (gpioWrite self data) (gpioWriteSteps self data) (lastRead self).
Proof.
  unfold gpioWrite. eapply Emits_steps_eq.
  - emits_seq Emits_initialize.
    emits_seq Emits_write.
    emits_seq Emits_write. emits_seq Emits_read.
    emits_seq Emits_write. apply Emits_read.
  - reflexivity.
Qed.

(** The steps of a returning [initialize].  Whenever [initialize] returns,
    the tape has gained, in order: CONTROL := 1, a wait, CONTROL := 2, a
    wait, CONTROL := 1, a wait, CONTROL := 0, and then the GPIO-enable sequence: four writes with the
    literal words of the source, the first, the second and the fourth of them
    followed by a read, the third followed directly by the fourth. *)
Theorem initialize_steps (r : Recorder B) u r' :
  initialize self r = (Returned u, r') ->
  exists t,
    tape r' = tape r ++ t
    /\ steps (busyIndex self) t = initSteps self ++ gpioEnableSteps self
    /\ gpioEnableSteps self =
       writeSteps self 0x00010002 0xff000000 ++ readSteps self
       ++ writeSteps self 0x00020003 0xff000000 ++ readSteps self
       ++ writeSteps self 0x02030020 0xffffffff
       ++ writeSteps self 0x02040021 0x0 ++ readSteps self.
Proof.
  intros Hrun.
  destruct (Emits_initialize _ _ _ Hrun) as (t & Htape & _ & Hsteps & _).
  exists t. repeat split; assumption.
Qed.

(** C7, amended.  Whenever [gpioWrite data] returns, it has first run
    [initialize] to its end, then written 0x02040010 with [data], written
    0x02050011 with 0 and read, written 0x02060001 with 0 and read; the pair
    it returns is the one the last read took from READ_COMMAND and
    READ_DATA. *)
Theorem gpioWrite_steps (data0 : Z) (r : Recorder B) result r' :
  gpioWrite self data0 r = (Returned result, r') ->
  (exists r1, initialize self r = (Returned tt, r1))
  /\ exists t,
       tape r' = tape r ++ t
       /\ steps (busyIndex self) t =
          initializeSteps self
          ++ writeSteps self 0x02040010 data0
          ++ writeSteps self 0x02050011 0x0 ++ readSteps self
          ++ writeSteps self 0x02060001 0x0 ++ readSteps self
       /\ lastRead self result t.
Proof.
  intros Hrun. split.
  - unfold gpioWrite in Hrun.
    apply bind_returned in Hrun as ([] & r1 & Hinit & _).
    exists r1. exact Hinit.
  - destruct (Emits_gpioWrite data0 _ _ _ Hrun) as (t & Htape & _ & Hsteps & Hlast).
    exists t. repeat split; assumption.
Qed.

End Steps.

(** *** Runs on the simulated window *)

Lemma waitOnBusyClear_budget_exact_witness :
  exists r',
    waitOnBusyClear cruSca stuckBar = (Thrown timeoutError, r')
    /\ tape r' = tape stuckBar
                 ++ busyReads cruSca (busyPolls cruSca budget stuckBar)
    /\ Z.of_nat (List.length (busyPolls cruSca budget stuckBar))
       = MAX_BUSY_ITERATIONS.
Proof.
  apply (proj1 (waitOnBusyClear_budget_exact cruSca stuckBar)).
  apply nonzero_forallb. vm_compute. reflexivity.
Defined.

Lemma initialize_steps_witness :
  exists t,
    tape (snd (initialize cruSca idleBar)) = tape idleBar ++ t
    /\ steps (busyIndex cruSca) t = initSteps cruSca ++ gpioEnableSteps cruSca
    /\ gpioEnableSteps cruSca =
       writeSteps cruSca 0x00010002 0xff000000 ++ readSteps cruSca
       ++ writeSteps cruSca 0x00020003 0xff000000 ++ readSteps cruSca
       ++ writeSteps cruSca 0x02030020 0xffffffff
       ++ writeSteps cruSca 0x02040021 0x0 ++ readSteps cruSca.
Proof.
  apply (initialize_steps cruSca idleBar tt (snd (initialize cruSca idleBar))).
  vm_compute. reflexivity.
Defined.

(** C8, the claim as stated: four write/read pairs.  On the simulated window
    [initialize] returns, and its steps are not those. *)
Lemma initialize_not_four_pairs :
  exists r',
    initialize cruSca idleBar = (Returned tt, r')
    /\ steps (busyIndex cruSca) (tape r')
       <> initSteps cruSca ++ gpioEnablePairs_spec cruSca.
Proof.
  eexists. split.
  - vm_compute. reflexivity.
  - intros Heq. vm_compute in Heq. discriminate Heq.
Qed.

Lemma gpioWrite_steps_witness :
  (exists r1, initialize cruSca idleBar = (Returned tt, r1))
  /\ exists t,
       tape (snd (gpioWrite cruSca 0x5 idleBar)) = tape idleBar ++ t
       /\ steps (busyIndex cruSca) t =
          initializeSteps cruSca
          ++ writeSteps cruSca 0x02040010 0x5
          ++ writeSteps cruSca 0x02050011 0x0 ++ readSteps cruSca
          ++ writeSteps cruSca 0x02060001 0x0 ++ readSteps cruSca
       /\ lastRead cruSca (mkReadResult 0x0 0x7) t.
Proof.
  apply (gpioWrite_steps cruSca 0x5 idleBar (mkReadResult 0x0 0x7)
           (snd (gpioWrite cruSca 0x5 idleBar))).
  vm_compute. reflexivity.
Defined.

(** C7, the claim as stated: three write/read pairs after the
    initialization.  On the simulated window [gpioWrite 5] returns, and its
    steps are not those: the first write has no read of its own. *)
Lemma gpioWrite_not_three_pairs :
  exists result r',
    gpioWrite cruSca 0x5 idleBar = (Returned result, r')
    /\ steps (busyIndex cruSca) (tape r')
       <> initializeSteps cruSca ++ gpioWritePairs_spec cruSca 0x5.
Proof.
  do 2 eexists. split.
  - vm_compute. reflexivity.
  - intros Heq. vm_compute in Heq. discriminate Heq.
Qed.

End AlfFacts.

(** ** Properties of the enumeration *)

Module RocFacts.
Import Roc RocSpec.

Lemma PciAddress_eqb_eq a b : PciAddress_eqb a b = true <-> a = b.
Proof.
  unfold PciAddress_eqb. rewrite !andb_true_iff, !Z.eqb_eq.
  destruct a as [ab asl af], b as [bb bsl bf]; cbn. split.
  - intros [[-> ->] ->]. reflexivity.
  - intros Heq. injection Heq as -> -> ->. auto.
Qed.

Lemma PciAddress_eqb_neq a b : PciAddress_eqb a b = false <-> a <> b.
Proof.
  rewrite <- PciAddress_eqb_eq. destruct (PciAddress_eqb a b); split;
    congruence.
Qed.

Lemma Forall2_In_l {A C} (P : A -> C -> Prop) l l' x :
  Forall2 P l l' -> In x l -> exists y, In y l' /\ P x y.
Proof.
  induction 1 as [| a c l l' Hac _ IH]; intros Hin; [destruct Hin |].
  destruct Hin as [-> | Hin].
  - exists c. split; [now left | exact Hac].
  - destruct (IH Hin) as (y & Hy & HP). exists y. split; [now right | exact HP].
Qed.

Section Enumeration.
Context {PdaPciDevice : Type} {pda : Pda PdaPciDevice}.

Lemma describes_describable candidate card :
  describes candidate card -> describable candidate.
Proof.
  destruct candidate as [type d]. intros (serial & address & Hs & Ha & _).
  split; eauto.
Qed.

Lemma findSystemDevices_devices_returned type pciDevices :
  forall cards out,
    findSystemDevices_devices type pciDevices cards = Returned out ->
    exists new, out = cards ++ new
                /\ Forall2 describes (map (pair type) pciDevices) new.
Proof.
  induction pciDevices as [| d rest IH]; intros cards out Hrun;
    cbn [findSystemDevices_devices] in Hrun.
  - injection Hrun as <-. exists []. rewrite app_nil_r. split; constructor.
  - unfold bind in Hrun.
    destruct (getSerial type d) as [serial | e] eqn:Hs; [| discriminate Hrun].
    destruct (addressFromDevice d) as [address | e] eqn:Ha;
      [| discriminate Hrun].
    destruct (IH _ _ Hrun) as (new & -> & Hall).
    eexists (_ :: new). split.
    + rewrite <- app_assoc. reflexivity.
    + cbn [map]. constructor; [| exact Hall].
      exists serial, address. auto.
Qed.

Lemma findSystemDevices_devices_complete type pciDevices :
  forall cards,
    Forall describable (map (pair type) pciDevices) ->
    exists new,
      findSystemDevices_devices type pciDevices cards = Returned (cards ++ new)
      /\ Forall2 describes (map (pair type) pciDevices) new.
Proof.
  induction pciDevices as [| d rest IH]; intros cards Hall;
    cbn [findSystemDevices_devices map] in *.
  - exists []. rewrite app_nil_r. split; constructor.
  - inversion Hall as [| ? ? Hd Hrest]; subst.
    destruct Hd as [[serial Hs] [address Ha]].
    rewrite Hs, Ha. cbn [bind].
    destruct (IH (cards ++ [mkCardDescriptor (deviceCardType type) serial
                              (devicePciId type) address
                              (PciDevice_getNumaNode d)]) Hrest)
      as (new & Hrun & Hnew).
    eexists (_ :: new). split.
    + rewrite Hrun, <- app_assoc. reflexivity.
    + constructor; [| exact Hnew]. exists serial, address. auto.
Qed.

Lemma findSystemDevices_types_returned types :
  forall cards out,
    findSystemDevices_types types cards = Returned out ->
    exists candidates new,
      scan types = Returned candidates
      /\ out = cards ++ new
      /\ Forall2 describes candidates new.
Proof.
  induction types as [| type rest IH]; intros cards out Hrun;
    cbn [findSystemDevices_types scan] in *.
  - injection Hrun as <-. exists [], []. rewrite app_nil_r.
    repeat split. constructor.
  - unfold bind in *.
    destruct (getPciDevices (devicePciId type)) as [pciDevices | e];
      [| discriminate Hrun].
    destruct (findSystemDevices_devices type pciDevices cards)
      as [cards' | e] eqn:Hdev; [| discriminate Hrun].
    apply findSystemDevices_devices_returned in Hdev as (new1 & -> & Hnew1).
    destruct (IH _ _ Hrun) as (more & new2 & -> & -> & Hnew2).
    exists (map (pair type) pciDevices ++ more), (new1 ++ new2).
    repeat split.
    + now rewrite app_assoc.
    + now apply Forall2_app.
Qed.

Lemma findSystemDevices_types_complete types :
  forall cards candidates,
    scan types = Returned candidates ->
    Forall describable candidates ->
    exists new,
      findSystemDevices_types types cards = Returned (cards ++ new)
      /\ Forall2 describes candidates new.
Proof.
  induction types as [| type rest IH]; intros cards candidates Hscan Hall;
    cbn [findSystemDevices_types scan] in *.
  - injection Hscan as <-. exists []. rewrite app_nil_r. split; constructor.
  - unfold bind in *.
    destruct (getPciDevices (devicePciId type)) as [pciDevices | e];
      [| discriminate Hscan].
    destruct (scan rest) as [more | e]; [| discriminate Hscan].
    injection Hscan as <-. apply Forall_app in Hall as [Hhere Hmore].
    destruct (findSystemDevices_devices_complete type pciDevices cards Hhere)
      as (new1 & -> & Hnew1).
    destruct (IH (cards ++ new1) more eq_refl Hmore) as (new2 & -> & Hnew2).
    exists (new1 ++ new2). split.
    + now rewrite app_assoc.
    + now apply Forall2_app.
Qed.

(** C4, amended.  [findSystemDevices()] has no skip-and-continue.  (1) When
    it returns, the list holds one descriptor for every enumerated device, in
    table order and discovery order, whatever serial (present or absent) the
    family's reader gave.  (2) It returns whenever every enumeration and every
    serial and address read succeeds.  (3) One enumerated device whose address
    cannot be read, or whose serial reader raises, makes the whole call raise.
    (4) So does an enumeration that raises. *)
Theorem findSystemDevices_all_or_nothing :
  (forall cards,
     findSystemDevices = Returned cards ->
     exists candidates,
       scan deviceTypes = Returned candidates
       /\ Forall2 describes candidates cards
       /\ List.length cards = List.length candidates)
  /\ (forall candidates,
        scan deviceTypes = Returned candidates ->
        Forall describable candidates ->
        exists cards,
          findSystemDevices = Returned cards
          /\ Forall2 describes candidates cards)
  /\ (forall candidates type d,
        scan deviceTypes = Returned candidates ->
        In (type, d) candidates ->
        (exists e, addressFromDevice d = Thrown e)
        \/ (exists e, getSerial type d = Thrown e) ->
        exists e, findSystemDevices = Thrown e)
  /\ (forall e,
        scan deviceTypes = Thrown e ->
        exists e', findSystemDevices = Thrown e').
Proof.
  unfold findSystemDevices.
  assert (Hreturned : forall cards,
            findSystemDevices_types deviceTypes [] = Returned cards ->
            exists candidates,
              scan deviceTypes = Returned candidates
              /\ Forall2 describes candidates cards).
  { intros cards Hrun.
    apply findSystemDevices_types_returned in Hrun
      as (candidates & new & Hscan & -> & Hall).
    exists candidates. split; assumption. }
  split; [| split; [| split]].
  - intros cards Hrun. destruct (Hreturned cards Hrun) as (candidates & Hscan & Hall).
    exists candidates. repeat split; try assumption.
    symmetry. eapply Forall2_length. exact Hall.
  - intros candidates Hscan Hall.
    destruct (findSystemDevices_types_complete deviceTypes [] candidates
                Hscan Hall) as (new & Hrun & Hnew).
    exists new. split; assumption.
  - intros candidates type d Hscan Hin Hfail.
    destruct (findSystemDevices_types deviceTypes []) as [cards | e] eqn:Hrun;
      [| eauto].
    exfalso. destruct (Hreturned cards eq_refl) as (candidates' & Hscan' & Hall).
    rewrite Hscan in Hscan'. injection Hscan' as <-.
    destruct (Forall2_In_l _ _ _ _ Hall Hin)
      as (card & _ & serial & address & Hs & Ha & _).
    destruct Hfail as [[e He] | [e He]]; congruence.
  - intros e Hscan.
    destruct (findSystemDevices_types deviceTypes []) as [cards | e'] eqn:Hrun;
      [| eauto].
    exfalso. destruct (Hreturned cards eq_refl) as (candidates & Hscan' & _).
    congruence.
Qed.

(** *** Binding to one card *)

Lemma optional_eqb_eq found serial :
  optional_eqb found serial = true <-> found = Some serial.
Proof.
  destruct found as [x |]; cbn; [| split; discriminate].
  rewrite Z.eqb_eq. split; [intros -> | intros [= ->]]; reflexivity.
Qed.

Lemma optional_eqb_neq found serial :
  found <> Some serial -> optional_eqb found serial = false.
Proof.
  intros Hne. destruct (optional_eqb found serial) eqn:Heq; [| reflexivity].
  apply optional_eqb_eq in Heq. contradiction.
Qed.

Lemma initWithSerial_devices_none type serial pciDevices :
  Forall (otherSerial serial type) pciDevices ->
  initWithSerial_devices type serial pciDevices = Returned None.
Proof.
  induction 1 as [| d rest (found & Hs & Hne) _ IH]; [reflexivity |].
  cbn [initWithSerial_devices]. rewrite Hs. cbn [bind].
  now rewrite optional_eqb_neq.
Qed.

Lemma initWithSerial_devices_found type serial before d after address :
  Forall (otherSerial serial type) before ->
  getSerial type d = Returned (Some serial) ->
  addressFromDevice d = Returned address ->
  initWithSerial_devices type serial (before ++ d :: after)
  = Returned (Some (boundTo type d (Some serial) address)).
Proof.
  intros Hbefore Hs Ha.
  induction Hbefore as [| d' rest (found & Hs' & Hne) _ IH];
    cbn [app initWithSerial_devices].
  - rewrite Hs. cbn [bind optional_eqb]. rewrite Z.eqb_refl, Ha. reflexivity.
  - rewrite Hs'. cbn [bind]. now rewrite optional_eqb_neq.
Qed.

Lemma initWithSerial_types_none serial types :
  Forall (familyWithout (otherSerial serial)) types ->
  initWithSerial_types types serial = Returned None.
Proof.
  induction 1 as [| type rest (pciDevices & Henum & Hnone) _ IH];
    [reflexivity |].
  cbn [initWithSerial_types]. rewrite Henum. cbn [bind].
  now rewrite initWithSerial_devices_none.
Qed.

Lemma initWithSerial_types_found serial tbefore type tafter before d after address :
  Forall (familyWithout (otherSerial serial)) tbefore ->
  getPciDevices (devicePciId type) = Returned (before ++ d :: after) ->
  Forall (otherSerial serial type) before ->
  getSerial type d = Returned (Some serial) ->
  addressFromDevice d = Returned address ->
  initWithSerial_types (tbefore ++ type :: tafter) serial
  = Returned (Some (boundTo type d (Some serial) address)).
Proof.
  intros Htypes Henum Hbefore Hs Ha.
  induction Htypes as [| type' rest (pciDevices & Henum' & Hnone) _ IH];
    cbn [app initWithSerial_types].
  - rewrite Henum. cbn [bind].
    now rewrite (initWithSerial_devices_found _ _ _ _ _ address).
  - rewrite Henum'. cbn [bind].
    now rewrite initWithSerial_devices_none.
Qed.

Lemma initWithAddress_devices_none type address pciDevices :
  Forall (otherAddress address) pciDevices ->
  initWithAddress_devices type address pciDevices = Returned None.
Proof.
  induction 1 as [| d rest (found & Ha & Hne) _ IH]; [reflexivity |].
  cbn [initWithAddress_devices]. rewrite Ha. cbn [bind].
  apply PciAddress_eqb_neq in Hne. now rewrite Hne.
Qed.

Lemma initWithAddress_devices_found type address before d after serial :
  Forall (otherAddress address) before ->
  addressFromDevice d = Returned address ->
  getSerial type d = Returned serial ->
  initWithAddress_devices type address (before ++ d :: after)
  = Returned (Some (boundTo type d serial address)).
Proof.
  intros Hbefore Ha Hs.
  induction Hbefore as [| d' rest (found & Ha' & Hne) _ IH];
    cbn [app initWithAddress_devices].
  - rewrite Ha. cbn [bind].
    rewrite (proj2 (PciAddress_eqb_eq address address) eq_refl), Hs.
    reflexivity.
  - rewrite Ha'. cbn [bind]. apply PciAddress_eqb_neq in Hne. now rewrite Hne.
Qed.

Lemma initWithAddress_types_none address types :
  Forall (familyWithout (fun _ => otherAddress address)) types ->
  initWithAddress_types types address = Returned None.
Proof.
  induction 1 as [| type rest (pciDevices & Henum & Hnone) _ IH];
    [reflexivity |].
  cbn [initWithAddress_types]. rewrite Henum. cbn [bind].
  now rewrite initWithAddress_devices_none.
Qed.

Lemma initWithAddress_types_found address tbefore type tafter before d after serial :
  Forall (familyWithout (fun _ => otherAddress address)) tbefore ->
  getPciDevices (devicePciId type) = Returned (before ++ d :: after) ->
  Forall (otherAddress address) before ->
  addressFromDevice d = Returned address ->
  getSerial type d = Returned serial ->
  initWithAddress_types (tbefore ++ type :: tafter) address
  = Returned (Some (boundTo type d serial address)).
Proof.
  intros Htypes Henum Hbefore Ha Hs.
  induction Htypes as [| type' rest (pciDevices & Henum' & Hnone) _ IH];
    cbn [app initWithAddress_types].
  - rewrite Henum. cbn [bind].
    now rewrite (initWithAddress_devices_found _ _ _ _ _ serial).
  - rewrite Henum'. cbn [bind].
    now rewrite initWithAddress_devices_none.
Qed.

(** C5.  The constructor from a [CardIdType] goes through the families in
    the order of [deviceTypes] and through each family's devices in discovery
    order.  (1, 3) It binds to the first device whose serial, or whose
    address, is the one searched for, when every family and device before it
    is read without error and the bound device's other number can be read.
    (2, 4) When every family enumerates and no device matches, it raises
    "Could not find card" carrying the serial number, or the address,
    searched for.  (5, 6) Every error it raises carries that key. *)
Theorem RocPciDevice_new_first_match :
  (forall serial tbefore type tafter before d after address,
     deviceTypes = tbefore ++ type :: tafter ->
     Forall (familyWithout (otherSerial serial)) tbefore ->
     getPciDevices (devicePciId type) = Returned (before ++ d :: after) ->
     Forall (otherSerial serial type) before ->
     getSerial type d = Returned (Some serial) ->
     addressFromDevice d = Returned address ->
     RocPciDevice_new (CardIdSerial serial)
     = Returned (boundTo type d (Some serial) address))
  /\ (forall serial,
        Forall (familyWithout (otherSerial serial)) deviceTypes ->
        RocPciDevice_new (CardIdSerial serial)
        = Thrown (notFoundSerial serial))
  /\ (forall address tbefore type tafter before d after serial,
        deviceTypes = tbefore ++ type :: tafter ->
        Forall (familyWithout (fun _ => otherAddress address)) tbefore ->
        getPciDevices (devicePciId type) = Returned (before ++ d :: after) ->
        Forall (otherAddress address) before ->
        addressFromDevice d = Returned address ->
        getSerial type d = Returned serial ->
        RocPciDevice_new (CardIdAddress address)
        = Returned (boundTo type d serial address))
  /\ (forall address,
        Forall (familyWithout (fun _ => otherAddress address)) deviceTypes ->
        RocPciDevice_new (CardIdAddress address)
        = Thrown (notFoundAddress address))
  /\ (forall serial e,
        RocPciDevice_new (CardIdSerial serial) = Thrown e ->
        SerialNumber e = Some serial)
  /\ (forall address e,
        RocPciDevice_new (CardIdAddress address) = Thrown e ->
        PciAddressInfo e = Some address).
Proof.
  cbn [RocPciDevice_new]. unfold initWithSerial, initWithAddress.
  split; [| split; [| split; [| split; [| split]]]].
  - intros serial tbefore type tafter before d after address
      Htable Htypes Henum Hbefore Hs Ha.
    rewrite Htable.
    rewrite (initWithSerial_types_found serial tbefore type tafter
               before d after address) by assumption.
    reflexivity.
  - intros serial Hnone.
    rewrite initWithSerial_types_none by assumption. reflexivity.
  - intros address tbefore type tafter before d after serial
      Htable Htypes Henum Hbefore Ha Hs.
    rewrite Htable.
    rewrite (initWithAddress_types_found address tbefore type tafter
               before d after serial) by assumption.
    reflexivity.
  - intros address Hnone.
    rewrite initWithAddress_types_none by assumption. reflexivity.
  - intros serial e. unfold rethrowing.
    destruct (bind _ _) as [device | e0]; [discriminate |].
    intros [= <-]. reflexivity.
  - intros address e. unfold rethrowing.
    destruct (bind _ _) as [device | e0]; [discriminate |].
    intros [= <-]. reflexivity.
Qed.

End Enumeration.

(** *** Runs on the simulated host *)

(** C4, the claim as stated: a device that cannot be described is left out
    and the scan goes on.  With every address readable, a card whose serial
    reader raises makes [findSystemDevices] raise instead of returning the
    other card; and a card whose serial is absent is listed, not left out. *)
Lemma findSystemDevices_does_not_skip :
  (@addressFromDevice _ (simHost (Returned [unmappableCard; crorcCard])
                                 (Returned [])) unmappableCard
   = Returned (mkPciAddress 3 0 0)
   /\ @findSystemDevices _ (simHost (Returned [unmappableCard; crorcCard])
                                    (Returned []))
      = Thrown mapFailure
   /\ @findSystemDevices _ (simHost (Returned [unmappableCard; crorcCard])
                                    (Returned []))
      <> Returned [crorcCardDescriptor])
  /\ @findSystemDevices _ (simHost (Returned [blankCard; crorcCard])
                                   (Returned []))
     = Returned [mkCardDescriptor Crorc None ("0033", "10dc")
                   (mkPciAddress 3 0 0) 0;
                 crorcCardDescriptor].
Proof.
  repeat split; try reflexivity. discriminate.
Qed.

Lemma findSystemDevices_all_or_nothing_witness :
  exists e,
    @findSystemDevices _ (simHost (Returned [unmappableCard; crorcCard])
                                  (Returned [cruCard]))
    = Thrown e.
Proof.
  pose (host := simHost (Returned [unmappableCard; crorcCard])
                        (Returned [cruCard])).
  destruct (@findSystemDevices_all_or_nothing SimPci host)
    as (_ & _ & Habort & _).
  apply (Habort _ (mkDeviceType Crorc ("0033", "10dc") crorcGetSerial)
           unmappableCard eq_refl).
  - left. reflexivity.
  - right. exists mapFailure. reflexivity.
Defined.

Lemma RocPciDevice_new_first_match_witness :
  @RocPciDevice_new _ (simHost (Returned [blankCard; crorcCard])
                               (Returned [cruCard]))
    (CardIdSerial 777)
  = Returned (mkRocPciDevice ("e001", "1172") cruCard
       (mkCardDescriptor Cru (Some 777) ("e001", "1172")
          (mkPciAddress 5 0 0) 1)).
Proof.
  pose (host := simHost (Returned [blankCard; crorcCard]) (Returned [cruCard])).
  apply (proj1 (@RocPciDevice_new_first_match SimPci host) 777
           [mkDeviceType Crorc ("0033", "10dc") crorcGetSerial]
           (mkDeviceType Cru ("e001", "1172") cruGetSerial) []
           [] cruCard [] (mkPciAddress 5 0 0)).
  - reflexivity.
  - constructor; [| constructor].
    exists [blankCard; crorcCard]. split; [reflexivity |].
    constructor; [| constructor; [| constructor]].
    + exists None. split; [reflexivity | discriminate].
    + exists (Some 12345). split; [reflexivity | discriminate].
  - reflexivity.
  - constructor.
  - reflexivity.
  - reflexivity.
Defined.

End RocFacts.

(** ** Properties of the generator bit setters *)

Module CruFacts.
Import Cru.

Lemma ownedMask_testbit f i :
  0 <= lsb f -> 0 <= width f -> 0 <= i ->
  Z.testbit (ownedMask f) i = (lsb f <=? i) && (i <? lsb f + width f).
Proof.
  intros Hl Hw Hi. unfold ownedMask. rewrite Z.shiftl_spec by assumption.
  destruct (Z.leb_spec (lsb f) i) as [Hle | Hlt].
  - rewrite Z.testbit_ones by assumption.
    destruct (Z.leb_spec 0 (i - lsb f)); [| lia]. cbn [andb].
    destruct (Z.ltb_spec (i - lsb f) (width f)),
             (Z.ltb_spec i (lsb f + width f)); reflexivity || lia.
  - rewrite Z.testbit_neg_r by lia. reflexivity.
Qed.

Lemma setBits_testbit f value bits i :
  0 <= lsb f -> 0 <= width f -> 0 <= i ->
  Z.testbit (setBits f value bits) i =
  if (lsb f <=? i) && (i <? lsb f + width f)
  then Z.testbit value (i - lsb f)
  else Z.testbit bits i.
Proof.
  intros Hl Hw Hi. unfold setBits.
  rewrite Z.lor_spec, Z.ldiff_spec, Z.land_spec, Z.shiftl_spec by assumption.
  rewrite ownedMask_testbit by assumption.
  destruct ((lsb f <=? i) && (i <? lsb f + width f)); cbn [negb].
  - rewrite andb_false_r, andb_true_r. reflexivity.
  - rewrite andb_true_r, andb_false_r, orb_false_r. reflexivity.
Qed.

Lemma setBits_other_bits f value bits :
  0 <= lsb f -> 0 <= width f ->
  decode_other_bits f (setBits f value bits) = decode_other_bits f bits.
Proof.
  intros Hl Hw. unfold decode_other_bits. apply Z.bits_inj'. intros i Hi.
  rewrite !Z.ldiff_spec, setBits_testbit, ownedMask_testbit by assumption.
  destruct ((lsb f <=? i) && (i <? lsb f + width f)); cbn [negb].
  - now rewrite !andb_false_r.
  - reflexivity.
Qed.

Lemma setBits_disjoint_field f g value bits :
  0 <= lsb f -> 0 <= width f -> 0 <= lsb g -> 0 <= width g -> disjoint f g ->
  getBits g (setBits f value bits) = getBits g bits.
Proof.
  intros Hl Hw Hg Hwg Hdis. unfold getBits. apply Z.bits_inj'. intros i Hi.
  rewrite !Z.land_spec, !Z.shiftr_spec by assumption.
  rewrite Z.testbit_ones by assumption.
  destruct (Z.leb_spec 0 i); [| lia]. cbn [andb].
  destruct (Z.ltb_spec i (width g)) as [Hin | Hout].
  - rewrite setBits_testbit by lia.
    destruct (Z.leb_spec (lsb f) (i + lsb g)),
             (Z.ltb_spec (i + lsb g) (lsb f + width f));
      cbn [andb]; try reflexivity.
    unfold disjoint in Hdis. lia.
  - now rewrite !andb_false_r.
Qed.

Lemma word32_bits x :
  0 <= x < 2 ^ 32 <-> (0 <= x /\ forall i, 32 <= i -> Z.testbit x i = false).
Proof.
  split.
  - intros Hx. split; [lia |]. intros i Hi.
    destruct (Z.eq_dec x 0) as [-> | Hnz]; [apply Z.bits_0 |].
    apply Z.bits_above_log2; [lia |].
    assert (Z.log2 x < 32) by (apply Z.log2_lt_pow2; lia). lia.
  - intros [Hpos Hhigh]. split; [assumption |].
    destruct (Z.eq_dec x 0) as [-> | Hnz]; [reflexivity |].
    apply Z.log2_lt_pow2; [lia |].
    destruct (Z_lt_le_dec (Z.log2 x) 32) as [Hlt | Hge]; [assumption |].
    pose proof (Z.bit_log2 x ltac:(lia)) as Hbit.
    rewrite Hhigh in Hbit by assumption. discriminate Hbit.
Qed.

Lemma setBits_word32 f value bits :
  inWord f -> 0 <= bits < 2 ^ 32 -> 0 <= setBits f value bits < 2 ^ 32.
Proof.
  intros (Hl & Hw & Hfit) Hbits. apply word32_bits in Hbits as [Hpos Hhigh].
  apply word32_bits. split.
  - unfold setBits. apply Z.lor_nonneg. split.
    + apply Z.ldiff_nonneg. now left.
    + apply Z.land_nonneg. right. unfold ownedMask.
      apply Z.shiftl_nonneg. rewrite Z.ones_equiv.
      pose proof (Z.pow_pos_nonneg 2 (width f)). lia.
  - intros i Hi. rewrite setBits_testbit by lia.
    destruct (Z.ltb_spec i (lsb f + width f)); [lia |].
    rewrite andb_false_r. now apply Hhigh.
Qed.

(** C9.  For every layout, every 32-bit word [R] and every call [S] of one
    of the four generator setters whose bits lie inside the word: the bits
    [S] does not own decode the same before and after; bit by bit, every bit
    outside the owned range is unchanged; the word is still a 32-bit word;
    and any field held in bits disjoint from the owned ones reads the same. *)
Theorem setter_leaves_other_bits (layout : Layout) (S : Setter) (R : Z) :
  inWord (owned layout S) ->
  0 <= R < 2 ^ 32 ->
  decode_other_bits (owned layout S) (applySetter layout S R)
  = decode_other_bits (owned layout S) R
  /\ (forall i, 0 <= i ->
        ~ (lsb (owned layout S) <= i
           < lsb (owned layout S) + width (owned layout S)) ->
        Z.testbit (applySetter layout S R) i = Z.testbit R i)
  /\ 0 <= applySetter layout S R < 2 ^ 32
  /\ (forall g, 0 <= lsb g -> 0 <= width g -> disjoint (owned layout S) g ->
        getBits g (applySetter layout S R) = getBits g R).
Proof.
  intros Hin HR.
  assert (Hshape : exists value,
            applySetter layout S R = setBits (owned layout S) value R).
  { destruct S; eexists; reflexivity. }
  destruct Hshape as [value ->].
  destruct Hin as (Hl & Hw & Hfit).
  split; [| split; [| split]].
  - apply setBits_other_bits; assumption.
  - intros i Hi Hout. rewrite setBits_testbit by assumption.
    destruct (Z.leb_spec (lsb (owned layout S)) i),
             (Z.ltb_spec i (lsb (owned layout S) + width (owned layout S)));
      cbn [andb]; try reflexivity.
    lia.
  - apply setBits_word32; [repeat split |]; assumption.
  - intros g Hg Hwg Hdis. apply setBits_disjoint_field; assumption.
Qed.

Lemma setter_leaves_other_bits_witness :
  decode_other_bits (mkBitRange 8 8)
    (setDataGeneratorSizeBits sampleLayout 0xdeadbeef 8192)
  = decode_other_bits (mkBitRange 8 8) 0xdeadbeef
  /\ setDataGeneratorSizeBits sampleLayout 0xdeadbeef 8192 = 0xdeadffef.
Proof.
  split; [| reflexivity].
  apply (setter_leaves_other_bits sampleLayout (SetSize 8192) 0xdeadbeef).
  - unfold inWord. cbn. lia.
  - lia.
Defined.

End CruFacts.

(** ** Properties of the filtering overloads of [findSystemDevices] *)

Module RocFindFacts.
Import Roc RocSpec RocFind RocFacts.

Section Filters.
Context {PdaPciDevice : Type} {pda : Pda PdaPciDevice}.

(** *** The filtered scans against the full scan *)

Lemma serial_devices_filter (type : @DeviceType PdaPciDevice) s pciDevices :
  forall cards out cards',
    findSystemDevices_devices type pciDevices cards = Returned out ->
    exists new,
      out = cards ++ new
      /\ findSystemDevices_serial_devices type s pciDevices cards'
         = Returned (cards' ++ filter (hasSerial s) new).
Proof.
  induction pciDevices as [| d rest IH]; intros cards out cards' Hrun;
    cbn [findSystemDevices_devices findSystemDevices_serial_devices] in *.
  - injection Hrun as <-. exists []. cbn. now rewrite !app_nil_r.
  - unfold bind in *.
    destruct (getSerial type d) as [serial | e]; [| discriminate Hrun].
    destruct (addressFromDevice d) as [address | e]; [| discriminate Hrun].
    set (card := mkCardDescriptor (deviceCardType type) serial
                   (devicePciId type) address (PciDevice_getNumaNode d)) in *.
    destruct (optional_eqb serial s) eqn:Hmatch.
    + destruct (IH _ _ (cards' ++ [card]) Hrun) as (new & -> & Hfind).
      exists (card :: new). split; [now rewrite <- app_assoc |].
      rewrite Hfind. cbn [filter]. unfold hasSerial at 2. cbn [serialNumber card].
      rewrite Hmatch. now rewrite <- app_assoc.
    + destruct (IH _ _ cards' Hrun) as (new & -> & Hfind).
      exists (card :: new). split; [now rewrite <- app_assoc |].
      rewrite Hfind. cbn [filter]. unfold hasSerial at 2. cbn [serialNumber card].
      now rewrite Hmatch.
Qed.

Lemma serial_types_filter s (types : list (@DeviceType PdaPciDevice)) :
  forall cards out cards',
    findSystemDevices_types types cards = Returned out ->
    exists new,
      out = cards ++ new
      /\ findSystemDevices_serial_types types s cards'
         = Returned (cards' ++ filter (hasSerial s) new).
Proof.
  induction types as [| type rest IH]; intros cards out cards' Hrun;
    cbn [findSystemDevices_types findSystemDevices_serial_types] in *.
  - injection Hrun as <-. exists []. cbn. now rewrite !app_nil_r.
  - unfold bind in *.
    destruct (getPciDevices (devicePciId type)) as [pciDevices | e];
      [| discriminate Hrun].
    destruct (findSystemDevices_devices type pciDevices cards)
      as [mid | e] eqn:Hdev; [| discriminate Hrun].
    destruct (serial_devices_filter type s pciDevices _ _ cards' Hdev)
      as (new1 & -> & ->).
    destruct (IH _ _ (cards' ++ filter (hasSerial s) new1) Hrun)
      as (new2 & -> & ->).
    exists (new1 ++ new2). split; [now rewrite app_assoc |].
    now rewrite filter_app, app_assoc.
Qed.

Lemma address_devices_filter (type : @DeviceType PdaPciDevice) a pciDevices :
  forall cards out cards',
    findSystemDevices_devices type pciDevices cards = Returned out ->
    exists new,
      out = cards ++ new
      /\ findSystemDevices_address_devices type a pciDevices cards'
         = Returned (cards' ++ filter (hasAddress a) new).
Proof.
  induction pciDevices as [| d rest IH]; intros cards out cards' Hrun;
    cbn [findSystemDevices_devices findSystemDevices_address_devices] in *.
  - injection Hrun as <-. exists []. cbn. now rewrite !app_nil_r.
  - unfold bind in *.
    destruct (getSerial type d) as [serial | e]; [| discriminate Hrun].
    destruct (addressFromDevice d) as [address | e]; [| discriminate Hrun].
    set (card := mkCardDescriptor (deviceCardType type) serial
                   (devicePciId type) address (PciDevice_getNumaNode d)) in *.
    destruct (PciAddress_eqb address a) eqn:Hmatch.
    + apply PciAddress_eqb_eq in Hmatch as Heq. subst a.
      destruct (IH _ _ (cards' ++ [card]) Hrun) as (new & -> & Hfind).
      exists (card :: new). split; [now rewrite <- app_assoc |].
      fold card. rewrite Hfind. cbn [filter]. unfold hasAddress at 2.
      cbn [pciAddress card]. rewrite Hmatch. now rewrite <- app_assoc.
    + destruct (IH _ _ cards' Hrun) as (new & -> & Hfind).
      exists (card :: new). split; [now rewrite <- app_assoc |].
      rewrite Hfind. cbn [filter]. unfold hasAddress at 2.
      cbn [pciAddress card]. now rewrite Hmatch.
Qed.

Lemma address_types_filter a (types : list (@DeviceType PdaPciDevice)) :
  forall cards out cards',
    findSystemDevices_types types cards = Returned out ->
    exists new,
      out = cards ++ new
      /\ findSystemDevices_address_types types a cards'
         = Returned (cards' ++ filter (hasAddress a) new).
Proof.
  induction types as [| type rest IH]; intros cards out cards' Hrun;
    cbn [findSystemDevices_types findSystemDevices_address_types] in *.
  - injection Hrun as <-. exists []. cbn. now rewrite !app_nil_r.
  - unfold bind in *.
    destruct (getPciDevices (devicePciId type)) as [pciDevices | e];
      [| discriminate Hrun].
    destruct (findSystemDevices_devices type pciDevices cards)
      as [mid | e] eqn:Hdev; [| discriminate Hrun].
    destruct (address_devices_filter type a pciDevices _ _ cards' Hdev)
      as (new1 & -> & ->).
    destruct (IH _ _ (cards' ++ filter (hasAddress a) new1) Hrun)
      as (new2 & -> & ->).
    exists (new1 ++ new2). split; [now rewrite app_assoc |].
    now rewrite filter_app, app_assoc.
Qed.

(** X1.  Whenever the full scan [findSystemDevices()] returns, the scan for
    a serial number returns the cards of the full list that carry that
    serial, and the scan for an address those that carry that address, in
    the same order. *)
Theorem findSystemDevices_filters_full_scan (all : list CardDescriptor) :
  findSystemDevices = Returned all ->
  (forall s, findSystemDevices_serial s = Returned (filter (hasSerial s) all))
  /\ (forall a,
        findSystemDevices_address a = Returned (filter (hasAddress a) all)).
Proof.
  unfold findSystemDevices, findSystemDevices_serial,
    findSystemDevices_address.
  intros Hrun. split.
  - intros s.
    destruct (serial_types_filter s deviceTypes [] all [] Hrun)
      as (new & -> & ->).
    reflexivity.
  - intros a.
    destruct (address_types_filter a deviceTypes [] all [] Hrun)
      as (new & -> & ->).
    reflexivity.
Qed.

(** *** The scan for a serial number on its own *)

Lemma serial_devices_returned (type : @DeviceType PdaPciDevice) s pciDevices :
  forall cards out,
    findSystemDevices_serial_devices type s pciDevices cards = Returned out ->
    exists new,
      out = cards ++ new
      /\ Forall serialReadable (map (pair type) pciDevices)
      /\ Forall2 describes
           (filter (matchesSerial s) (map (pair type) pciDevices)) new
      /\ Forall (fun card => serialNumber card = Some s) new.
Proof.
  induction pciDevices as [| d rest IH]; intros cards out Hrun;
    cbn [findSystemDevices_serial_devices map filter] in *.
  - injection Hrun as <-. exists []. rewrite app_nil_r.
    repeat split; constructor.
  - unfold bind in Hrun. unfold matchesSerial at 1. cbn [fst snd].
    destruct (getSerial type d) as [found | e] eqn:Hs; [| discriminate Hrun].
    destruct (optional_eqb found s) eqn:Hmatch.
    + destruct (addressFromDevice d) as [address | e] eqn:Ha;
        [| discriminate Hrun].
      destruct (IH _ _ Hrun) as (new & -> & Hread & Hdesc & Hser).
      eexists (_ :: new). split; [now rewrite <- app_assoc |].
      split; [constructor; [exists found; exact Hs | exact Hread] |].
      split.
      * constructor; [| exact Hdesc]. exists found, address. auto.
      * constructor; [| exact Hser]. cbn. now apply optional_eqb_eq.
    + destruct (IH _ _ Hrun) as (new & -> & Hread & Hdesc & Hser).
      exists new. split; [reflexivity |].
      split; [constructor; [exists found; exact Hs | exact Hread] |].
      split; assumption.
Qed.

Lemma serial_devices_complete (type : @DeviceType PdaPciDevice) s pciDevices :
  forall cards,
    Forall serialReadable (map (pair type) pciDevices) ->
    Forall describable
      (filter (matchesSerial s) (map (pair type) pciDevices)) ->
    exists new,
      findSystemDevices_serial_devices type s pciDevices cards
      = Returned (cards ++ new)
      /\ Forall2 describes
           (filter (matchesSerial s) (map (pair type) pciDevices)) new.
Proof.
  induction pciDevices as [| d rest IH]; intros cards Hread Hdesc;
    cbn [findSystemDevices_serial_devices map filter] in *.
  - exists []. rewrite app_nil_r. split; constructor.
  - inversion Hread as [| ? ? [found Hs] Hread']; subst. cbn [fst snd] in Hs.
    unfold matchesSerial at 1 in Hdesc. unfold matchesSerial at 1.
    cbn [fst snd] in *. rewrite Hs in *. cbn [bind].
    destruct (optional_eqb found s) eqn:Hmatch.
    + inversion Hdesc as [| ? ? Hd Hdesc']; subst.
      destruct Hd as [_ [address Ha]].
      rewrite Ha. cbn [bind].
      destruct (IH (cards ++ [mkCardDescriptor (deviceCardType type) found
                                (devicePciId type) address
                                (PciDevice_getNumaNode d)]) Hread' Hdesc')
        as (new & Hrun & Hnew).
      eexists (_ :: new). split.
      * rewrite Hrun, <- app_assoc. reflexivity.
      * constructor; [| exact Hnew]. exists found, address. auto.
    + apply IH; assumption.
Qed.

Lemma serial_types_returned s (types : list (@DeviceType PdaPciDevice)) :
  forall cards out,
    findSystemDevices_serial_types types s cards = Returned out ->
    exists candidates new,
      scan types = Returned candidates
      /\ out = cards ++ new
      /\ Forall serialReadable candidates
      /\ Forall2 describes (filter (matchesSerial s) candidates) new
      /\ Forall (fun card => serialNumber card = Some s) new.
Proof.
  induction types as [| type rest IH]; intros cards out Hrun;
    cbn [findSystemDevices_serial_types scan] in *.
  - injection Hrun as <-. exists [], []. rewrite app_nil_r.
    repeat split; constructor.
  - unfold bind in *.
    destruct (getPciDevices (devicePciId type)) as [pciDevices | e];
      [| discriminate Hrun].
    destruct (findSystemDevices_serial_devices type s pciDevices cards)
      as [mid | e] eqn:Hdev; [| discriminate Hrun].
    apply serial_devices_returned in Hdev
      as (new1 & -> & Hread1 & Hdesc1 & Hser1).
    destruct (IH _ _ Hrun) as (more & new2 & -> & -> & Hread2 & Hdesc2 & Hser2).
    exists (map (pair type) pciDevices ++ more), (new1 ++ new2).
    split; [reflexivity |]. split; [now rewrite app_assoc |].
    split; [now apply Forall_app |].
    split; [rewrite filter_app; now apply Forall2_app |].
    now apply Forall_app.
Qed.

Lemma serial_types_complete s (types : list (@DeviceType PdaPciDevice)) :
  forall cards candidates,
    scan types = Returned candidates ->
    Forall serialReadable candidates ->
    Forall describable (filter (matchesSerial s) candidates) ->
    exists new,
      findSystemDevices_serial_types types s cards = Returned (cards ++ new)
      /\ Forall2 describes (filter (matchesSerial s) candidates) new.
Proof.
  induction types as [| type rest IH]; intros cards candidates Hscan Hread Hdesc;
    cbn [findSystemDevices_serial_types scan] in *.
  - injection Hscan as <-. exists []. rewrite app_nil_r. split; constructor.
  - unfold bind in *.
    destruct (getPciDevices (devicePciId type)) as [pciDevices | e];
      [| discriminate Hscan].
    destruct (scan rest) as [more | e]; [| discriminate Hscan].
    injection Hscan as <-. apply Forall_app in Hread as [Hread1 Hread2].
    rewrite filter_app in *. apply Forall_app in Hdesc as [Hdesc1 Hdesc2].
    destruct (serial_devices_complete type s pciDevices cards Hread1 Hdesc1)
      as (new1 & -> & Hnew1).
    destruct (IH (cards ++ new1) more eq_refl Hread2 Hdesc2)
      as (new2 & -> & Hnew2).
    exists (new1 ++ new2). split; [now rewrite app_assoc |].
    now apply Forall2_app.
Qed.

(** X2.  [findSystemDevices(serialNumber)].  (1) When it returns, every card
    of the list carries the serial searched for, and the list describes, in
    order, exactly the enumerated devices whose serial reads as that number.
    (2) It returns as soon as every family enumerates, every serial can be
    read and the matching devices can be described: the address of a device
    that does not match is never read.  (3) With no matching device the
    result is the empty list, not an error.  (4) Every error it raises
    carries the serial searched for. *)
Theorem findSystemDevices_serial_matches (s : Z) :
  (forall cards,
     findSystemDevices_serial s = Returned cards ->
     Forall (fun card => serialNumber card = Some s) cards
     /\ exists candidates,
          scan deviceTypes = Returned candidates
          /\ Forall serialReadable candidates
          /\ Forall2 describes (filter (matchesSerial s) candidates) cards)
  /\ (forall candidates,
        scan deviceTypes = Returned candidates ->
        Forall serialReadable candidates ->
        Forall describable (filter (matchesSerial s) candidates) ->
        exists cards,
          findSystemDevices_serial s = Returned cards
          /\ Forall2 describes (filter (matchesSerial s) candidates) cards)
  /\ (forall candidates,
        scan deviceTypes = Returned candidates ->
        Forall serialReadable candidates ->
        filter (matchesSerial s) candidates = [] ->
        findSystemDevices_serial s = Returned [])
  /\ (forall e,
        findSystemDevices_serial s = Thrown e -> SerialNumber e = Some s).
Proof.
  unfold findSystemDevices_serial, rethrowing.
  split; [| split; [| split]].
  - intros cards Hrun.
    destruct (findSystemDevices_serial_types deviceTypes s []) as [out | e]
      eqn:Hfind; [| discriminate Hrun].
    injection Hrun as <-.
    apply serial_types_returned in Hfind
      as (candidates & new & Hscan & -> & Hread & Hdesc & Hser).
    split; [exact Hser |]. exists candidates. auto.
  - intros candidates Hscan Hread Hdesc.
    destruct (serial_types_complete s deviceTypes [] candidates
                Hscan Hread Hdesc) as (new & -> & Hnew).
    exists new. auto.
  - intros candidates Hscan Hread Hnone.
    destruct (serial_types_complete s deviceTypes [] candidates Hscan Hread)
      as (new & -> & Hnew).
    + rewrite Hnone. constructor.
    + rewrite Hnone in Hnew. inversion Hnew. reflexivity.
  - intros e.
    destruct (findSystemDevices_serial_types deviceTypes s []) as [out | e0];
      [discriminate |].
    intros [= <-]. reflexivity.
Qed.

(** X3.  [findSystemDevices(address)]: every card of the list it returns
    carries the address searched for, and every error it raises carries that
    address. *)
Theorem findSystemDevices_address_cards (a : PciAddress) :
  (forall cards,
     findSystemDevices_address a = Returned cards ->
     Forall (fun card => pciAddress card = a) cards)
  /\ (forall e,
        findSystemDevices_address a = Thrown e -> PciAddressInfo e = Some a).
Proof.
  assert (Hdev : forall (type : @DeviceType PdaPciDevice) pciDevices cards out,
            findSystemDevices_address_devices type a pciDevices cards
            = Returned out ->
            Forall (fun card => pciAddress card = a) cards ->
            Forall (fun card => pciAddress card = a) out).
  { intros type. induction pciDevices as [| d rest IH];
      intros cards out Hrun Hcards;
      cbn [findSystemDevices_address_devices] in Hrun.
    - injection Hrun as <-. exact Hcards.
    - unfold bind in Hrun.
      destruct (addressFromDevice d) as [found | e]; [| discriminate Hrun].
      destruct (PciAddress_eqb found a); [| now apply (IH _ _ Hrun)].
      destruct (getSerial type d) as [serial | e]; [| discriminate Hrun].
      apply (IH _ _ Hrun). apply Forall_app. split; [exact Hcards |].
      constructor; [reflexivity | constructor]. }
  assert (Htypes : forall (types : list (@DeviceType PdaPciDevice)) cards out,
            findSystemDevices_address_types types a cards = Returned out ->
            Forall (fun card => pciAddress card = a) cards ->
            Forall (fun card => pciAddress card = a) out).
  { induction types as [| type rest IH]; intros cards out Hrun Hcards;
      cbn [findSystemDevices_address_types] in Hrun.
    - injection Hrun as <-. exact Hcards.
    - unfold bind in Hrun.
      destruct (getPciDevices (devicePciId type)) as [pciDevices | e];
        [| discriminate Hrun].
      destruct (findSystemDevices_address_devices type a pciDevices cards)
        as [mid | e] eqn:Hmid; [| discriminate Hrun].
      apply (IH _ _ Hrun). apply (Hdev _ _ _ _ Hmid Hcards). }
  unfold findSystemDevices_address, rethrowing. split.
  - intros cards Hrun.
    destruct (findSystemDevices_address_types deviceTypes a []) as [out | e]
      eqn:Hfind; [| discriminate Hrun].
    injection Hrun as <-. apply (Htypes _ _ _ Hfind). constructor.
  - intros e.
    destruct (findSystemDevices_address_types deviceTypes a []) as [out | e0];
      [discriminate |].
    intros [= <-]. reflexivity.
Qed.

(** *** Binding to one card against the scan for it *)

Lemma serial_devices_first (type : @DeviceType PdaPciDevice) s pciDevices :
  forall cards out,
    findSystemDevices_serial_devices type s pciDevices cards = Returned out ->
    exists new,
      out = cards ++ new
      /\ match new with
         | [] => initWithSerial_devices type s pciDevices = Returned None
         | card :: _ =>
             exists device,
               initWithSerial_devices type s pciDevices
               = Returned (Some device)
               /\ mDescriptor device = card
         end.
Proof.
  induction pciDevices as [| d rest IH]; intros cards out Hrun;
    cbn [findSystemDevices_serial_devices initWithSerial_devices] in *.
  - injection Hrun as <-. exists []. rewrite app_nil_r. auto.
  - unfold bind in *.
    destruct (getSerial type d) as [found | e]; [| discriminate Hrun].
    destruct (optional_eqb found s) eqn:Hmatch.
    + destruct (addressFromDevice d) as [address | e]; [| discriminate Hrun].
      destruct (IH _ _ Hrun) as (new & -> & _).
      eexists (_ :: new). split; [now rewrite <- app_assoc |].
      eexists. split; [reflexivity |]. cbn [mDescriptor].
      apply optional_eqb_eq in Hmatch. now subst found.
    + apply (IH _ _ Hrun).
Qed.

Lemma serial_types_first s (types : list (@DeviceType PdaPciDevice)) :
  forall cards out,
    findSystemDevices_serial_types types s cards = Returned out ->
    exists new,
      out = cards ++ new
      /\ match new with
         | [] => initWithSerial_types types s = Returned None
         | card :: _ =>
             exists device,
               initWithSerial_types types s = Returned (Some device)
               /\ mDescriptor device = card
         end.
Proof.
  induction types as [| type rest IH]; intros cards out Hrun;
    cbn [findSystemDevices_serial_types initWithSerial_types] in *.
  - injection Hrun as <-. exists []. rewrite app_nil_r. auto.
  - unfold bind in *.
    destruct (getPciDevices (devicePciId type)) as [pciDevices | e];
      [| discriminate Hrun].
    destruct (findSystemDevices_serial_devices type s pciDevices cards)
      as [mid | e] eqn:Hdev; [| discriminate Hrun].
    apply serial_devices_first in Hdev as (new1 & -> & Hfirst1).
    destruct (IH _ _ Hrun) as (new2 & -> & Hfirst2).
    exists (new1 ++ new2). split; [now rewrite app_assoc |].
    destruct new1 as [| card new1]; cbn [app].
    + rewrite Hfirst1. exact Hfirst2.
    + destruct Hfirst1 as (device & -> & Hcard). exists device. auto.
Qed.

Lemma address_devices_first (type : @DeviceType PdaPciDevice) a pciDevices :
  forall cards out,
    findSystemDevices_address_devices type a pciDevices cards = Returned out ->
    exists new,
      out = cards ++ new
      /\ match new with
         | [] => initWithAddress_devices type a pciDevices = Returned None
         | card :: _ =>
             exists device,
               initWithAddress_devices type a pciDevices
               = Returned (Some device)
               /\ mDescriptor device = card
         end.
Proof.
  induction pciDevices as [| d rest IH]; intros cards out Hrun;
    cbn [findSystemDevices_address_devices initWithAddress_devices] in *.
  - injection Hrun as <-. exists []. rewrite app_nil_r. auto.
  - unfold bind in *.
    destruct (addressFromDevice d) as [found | e]; [| discriminate Hrun].
    destruct (PciAddress_eqb found a) eqn:Hmatch.
    + destruct (getSerial type d) as [serial | e]; [| discriminate Hrun].
      destruct (IH _ _ Hrun) as (new & -> & _).
      eexists (_ :: new). split; [now rewrite <- app_assoc |].
      eexists. split; reflexivity.
    + apply (IH _ _ Hrun).
Qed.

Lemma address_types_first a (types : list (@DeviceType PdaPciDevice)) :
  forall cards out,
    findSystemDevices_address_types types a cards = Returned out ->
    exists new,
      out = cards ++ new
      /\ match new with
         | [] => initWithAddress_types types a = Returned None
         | card :: _ =>
             exists device,
               initWithAddress_types types a = Returned (Some device)
               /\ mDescriptor device = card
         end.
Proof.
  induction types as [| type rest IH]; intros cards out Hrun;
    cbn [findSystemDevices_address_types initWithAddress_types] in *.
  - injection Hrun as <-. exists []. rewrite app_nil_r. auto.
  - unfold bind in *.
    destruct (getPciDevices (devicePciId type)) as [pciDevices | e];
      [| discriminate Hrun].
    destruct (findSystemDevices_address_devices type a pciDevices cards)
      as [mid | e] eqn:Hdev; [| discriminate Hrun].
    apply address_devices_first in Hdev as (new1 & -> & Hfirst1).
    destruct (IH _ _ Hrun) as (new2 & -> & Hfirst2).
    exists (new1 ++ new2). split; [now rewrite app_assoc |].
    destruct new1 as [| card new1]; cbn [app].
    + rewrite Hfirst1. exact Hfirst2.
    + destruct Hfirst1 as (device & -> & Hcard). exists device. auto.
Qed.

(** X4.  Whenever the scan for a serial number (or for an address) returns,
    the constructor given the same key binds to the card at the head of the
    scan's list; when the list is empty the constructor raises "Could not
    find card" with the key. *)
Theorem RocPciDevice_new_binds_head_of_scan (cardId : CardIdType)
  (cards : list CardDescriptor) :
  match cardId with
  | CardIdSerial s => findSystemDevices_serial s
  | CardIdAddress a => findSystemDevices_address a
  end = Returned cards ->
  match cards with
  | [] =>
      RocPciDevice_new cardId
      = Thrown match cardId with
               | CardIdSerial s => notFoundSerial s
               | CardIdAddress a => notFoundAddress a
               end
  | card :: _ =>
      exists device,
        RocPciDevice_new cardId = Returned device
        /\ mDescriptor device = card
  end.
Proof.
  destruct cardId as [s | a]; cbn [RocPciDevice_new];
    unfold findSystemDevices_serial, findSystemDevices_address, initWithSerial,
      initWithAddress, rethrowing; intros Hrun.
  - destruct (findSystemDevices_serial_types deviceTypes s []) as [out | e]
      eqn:Hfind; [| discriminate Hrun].
    injection Hrun as <-.
    apply serial_types_first in Hfind as (new & -> & Hfirst). cbn [app].
    destruct new as [| card new].
    + rewrite Hfirst. reflexivity.
    + destruct Hfirst as (device & -> & Hcard). exists device. auto.
  - destruct (findSystemDevices_address_types deviceTypes a []) as [out | e]
      eqn:Hfind; [| discriminate Hrun].
    injection Hrun as <-.
    apply address_types_first in Hfind as (new & -> & Hfirst). cbn [app].
    destruct new as [| card new].
    + rewrite Hfirst. reflexivity.
    + destruct Hfirst as (device & -> & Hcard). exists device. auto.
Qed.

End Filters.

Lemma findSystemDevices_filters_full_scan_witness :
  @findSystemDevices_serial _ (simHost (Returned [blankCard; crorcCard])
                                       (Returned [cruCard])) 777
  = Returned [mkCardDescriptor Cru (Some 777) ("e001", "1172")
                (mkPciAddress 5 0 0) 1].
Proof.
  pose (host := simHost (Returned [blankCard; crorcCard]) (Returned [cruCard])).
  apply (proj1 (@findSystemDevices_filters_full_scan SimPci host
                  [mkCardDescriptor Crorc None ("0033", "10dc")
                     (mkPciAddress 3 0 0) 0;
                   crorcCardDescriptor;
                   mkCardDescriptor Cru (Some 777) ("e001", "1172")
                     (mkPciAddress 5 0 0) 1]
                  eq_refl) 777).
Defined.

Lemma findSystemDevices_serial_matches_witness :
  @findSystemDevices _ mixedHost
  = Thrown (Exception_Message "Failed to retrieve device address")
  /\ exists cards,
       @findSystemDevices_serial _ mixedHost 12345 = Returned cards
       /\ Forall2 (@describes _ mixedHost)
            (filter (matchesSerial 12345)
               [(mkDeviceType Crorc ("0033", "10dc")
                   (@crorcGetSerial _ mixedHost), addresslessCard);
                (mkDeviceType Crorc ("0033", "10dc")
                   (@crorcGetSerial _ mixedHost), crorcCard);
                (mkDeviceType Cru ("e001", "1172")
                   (@cruGetSerial _ mixedHost), cruCard)])
            cards.
Proof.
  split; [reflexivity |].
  apply (proj1 (proj2 (@findSystemDevices_serial_matches SimPci mixedHost
                         12345))).
  - reflexivity.
  - repeat constructor; eexists; reflexivity.
  - cbn. constructor; [| constructor].
    split; eexists; reflexivity.
Defined.

Lemma RocPciDevice_new_binds_head_of_scan_witness :
  exists device,
    @RocPciDevice_new _ (simHost (Returned [blankCard; crorcCard])
                                 (Returned [cruCard]))
      (CardIdAddress (mkPciAddress 4 0 0)) = Returned device
    /\ mDescriptor device = crorcCardDescriptor.
Proof.
  pose (host := simHost (Returned [blankCard; crorcCard]) (Returned [cruCard])).
  apply (@RocPciDevice_new_binds_head_of_scan SimPci host
           (CardIdAddress (mkPciAddress 4 0 0)) [crorcCardDescriptor]).
  reflexivity.
Defined.

End RocFindFacts.

(** ** More properties of the SCA engine *)

Module AlfMoreFacts.
Import Alf AlfSpec AlfMoreSpec AlfFacts.

Lemma bind_thrown {B A C} (m : M B A) (k : A -> M B C) b e b' :
  bind m k b = (Thrown e, b') ->
  m b = (Thrown e, b')
  \/ exists a b1, m b = (Returned a, b1) /\ k a b1 = (Thrown e, b').
Proof.
  unfold bind. destruct (m b) as [[a | e0] b1]; intros Hk.
  - right. exists a, b1. split; [reflexivity | exact Hk].
  - left. injection Hk as <- <-. reflexivity.
Qed.

(** *** [Sca::write] *)

Section Write.
Context {B : Type} {bar2 : RegisterReadWriteInterface B}.
Variable self : Sca.

(** X5.  [write(command, data)] stores the two words, pulses CONTROL and
    then returns exactly when one of the next 10,000 reads of BUSY is zero;
    the device is then left right after the first such read.  Otherwise it
    throws, and the only error it ever throws is the timeout, after all
    10,000 reads. *)
Theorem write_returns_iff_busy_clears (command data : Z) (b : B) :
  let started := afterWriteRegisters self command data b in
  let polls := busyPolls self budget started in
  ((exists b', write self command data b = (Returned tt, b'))
   <-> exists k, nth_error polls k = Some 0)
  /\ (forall u b',
        write self command data b = (Returned u, b') ->
        exists k, b' = afterPolls self (S k) started
                  /\ nth_error polls k = Some 0
                  /\ Forall nonzero (firstn k polls))
  /\ (forall e b',
        write self command data b = (Thrown e, b') ->
        e = timeoutError
        /\ b' = afterPolls self budget started
        /\ Forall nonzero polls).
Proof.
  intros started polls. rewrite write_unfold. fold started.
  unfold waitOnBusyClear. fold budget.
  split; [| split].
  - split.
    + intros [b' Hrun].
      apply waitOnBusyClear_loop_returned in Hrun as (k & _ & _ & Hk & _).
      exists k. exact Hk.
    + intros [k Hk].
      destruct (waitOnBusyClear_loop self budget started) as [[[] | e] b']
        eqn:Hrun; [exists b'; reflexivity |].
      apply waitOnBusyClear_loop_thrown in Hrun as (_ & _ & Hall).
      apply nth_error_In in Hk. rewrite Forall_forall in Hall.
      exfalso. apply (Hall 0 Hk). reflexivity.
  - intros u b' Hrun.
    apply waitOnBusyClear_loop_returned in Hrun as (k & _ & Hb & Hk & Hbefore).
    exists k. auto.
  - intros e b' Hrun. now apply waitOnBusyClear_loop_thrown in Hrun.
Qed.

End Write.

(** *** The error check reads the low byte only *)

Lemma decodedFlags_nil_iff command :
  decodedFlags command = [] <-> Z.land command 0x7f = 0.
Proof.
  split.
  - intros Hnil. apply Z.bits_inj'. intros i Hi.
    rewrite Z.land_spec, Z.bits_0.
    destruct (Z_le_gt_dec i 6) as [Hle | Hgt].
    + destruct (Z.testbit command i) eqn:Hbit; [| reflexivity].
      assert (Hin : In i (decodedFlags command))
        by (apply decodedFlags_In; split; [lia | exact Hbit]).
      rewrite Hnil in Hin. destruct Hin.
    + change 0x7f with (Z.ones 7). rewrite Z.ones_spec_high by lia.
      apply andb_false_r.
  - intros Hzero.
    destruct (decodedFlags command) as [| f fs] eqn:Hfl; [reflexivity |].
    assert (Hin : In f (decodedFlags command)) by (rewrite Hfl; now left).
    apply decodedFlags_In in Hin as [Hr Hbit].
    assert (Hland : Z.testbit (Z.land command 0x7f) f = true).
    { rewrite Z.land_spec, Hbit. change 0x7f with (Z.ones 7).
      rewrite Z.ones_spec_low by lia. reflexivity. }
    rewrite Hzero, Z.bits_0 in Hland. discriminate Hland.
Qed.

(** X6.  [checkError] looks at the low byte of the command word and at
    nothing else: two words with the same low byte have the same outcome,
    message included.  It returns exactly when the low seven bits are all
    clear, so bit 7 and the channel and transaction fields never make it
    throw.  It never touches the device. *)
Theorem checkError_reads_low_byte_only {B} (command : Z) (b : B) :
  (forall command',
     Z.land command 0xff = Z.land command' 0xff ->
     checkError command b = checkError command' b)
  /\ (fst (checkError command b) = Returned tt <-> Z.land command 0x7f = 0)
  /\ snd (checkError command b) = b.
Proof.
  split; [| split].
  - intros command' Hlow. rewrite !checkError_unfold.
    rewrite <- (decodedFlags_lowByte command),
            <- (decodedFlags_lowByte command'), Hlow.
    reflexivity.
  - rewrite checkError_unfold, <- decodedFlags_nil_iff. cbn [fst].
    destruct (decodedFlags command); split; intros H;
      reflexivity || discriminate H.
  - rewrite checkError_unfold. reflexivity.
Qed.

Lemma checkError_reads_low_byte_only_witness :
  checkError 0x02040080 tt = checkError 0x00000080 tt
  /\ fst (checkError 0x02040080 tt) = Returned tt.
Proof.
  split.
  - apply (proj1 (checkError_reads_low_byte_only 0x02040080 tt) 0x00000080).
    reflexivity.
  - apply (proj1 (proj2 (checkError_reads_low_byte_only 0x02040080 tt))).
    reflexivity.
Defined.

(** *** How many register accesses an operation makes *)

Section Bounds.
Context {B : Type} {bar2 : RegisterReadWriteInterface B}.
Variable self : Sca.

Lemma Bounded_le {A} (m : M (Recorder B) A) n n' :
  Bounded m n -> n <= n' -> Bounded m n'.
Proof.
  intros Hm Hle r. destruct (Hm r) as (t & Htape & Hlen).
  exists t. split; [exact Htape | lia].
Qed.

Lemma Bounded_ret {A} (a : A) : Bounded (B:=B) (ret a) 0.
Proof. intros r. exists []. cbn. rewrite app_nil_r. split; [reflexivity | lia]. Qed.

Lemma Bounded_bind {A C} (m : M (Recorder B) A) (k : A -> M (Recorder B) C)
  n1 n2 :
  Bounded m n1 -> (forall a, Bounded (k a) n2) ->
  Bounded (bind m k) (n1 + Z.max 0 n2).
Proof.
  intros Hm Hk r. unfold bind.
  destruct (Hm r) as (t1 & Htape1 & Hlen1).
  destruct (m r) as [[a | e] r1]; cbn [snd] in *.
  - destruct (Hk a r1) as (t2 & Htape2 & Hlen2).
    exists (t1 ++ t2). split.
    + rewrite Htape2, Htape1. now rewrite app_assoc.
    + rewrite length_app. lia.
  - exists t1. split; [exact Htape1 | lia].
Qed.

Lemma Bounded_barWrite index value : Bounded (barWrite self index value) 1.
Proof.
  intros r. exists [EvWrite (index + offset self) value].
  split; [reflexivity | cbn; lia].
Qed.

Lemma Bounded_waitOnBusyClear :
  Bounded (waitOnBusyClear self) MAX_BUSY_ITERATIONS.
Proof.
  intros r. unfold waitOnBusyClear. fold budget.
  destruct (waitOnBusyClear_loop self budget r) as [[u | e] r'] eqn:Hrun;
    cbn [snd].
  - apply waitOnBusyClear_loop_returned in Hrun as (k & Hk & -> & _ & _).
    exists (busyReads self (busyPolls self (S k) r)).
    split; [apply tape_afterPolls |].
    unfold busyReads. rewrite length_map, busyPolls_length.
    pose proof budget_value. unfold MAX_BUSY_ITERATIONS. lia.
  - apply waitOnBusyClear_loop_thrown in Hrun as (_ & -> & _).
    exists (busyReads self (busyPolls self budget r)).
    split; [apply tape_afterPolls |].
    unfold busyReads. rewrite length_map, busyPolls_length.
    pose proof budget_value. unfold MAX_BUSY_ITERATIONS. lia.
Qed.

Lemma Bounded_write command data :
  Bounded (write self command data) (4 + MAX_BUSY_ITERATIONS).
Proof.
  intros r. rewrite write_unfold.
  destruct (Bounded_waitOnBusyClear (afterWriteRegisters self command data r))
    as (t & Htape & Hlen).
  exists (writeRegisters self command data ++ t). split.
  - rewrite Htape, tape_afterWriteRegisters. now rewrite <- app_assoc.
  - rewrite length_app. cbn [writeRegisters List.length]. lia.
Qed.

Lemma read_tape (r : Recorder B) :
  exists d c,
    tape (snd (read self r))
    = tape r ++ [EvRead (Registers.READ_DATA + offset self) d;
                 EvRead (Registers.READ_COMMAND + offset self) c]
    /\ fst (read self r)
       = match decodedFlags c with
         | [] => Returned (mkReadResult c d)
         | _ :: _ =>
             Thrown (mkScaException
                       (errorMessage (Z.land c 0xff) (decodedFlags c)))
         end.
Proof.
  rewrite read_unfold. cbn [readRegister Recorder_bar].
  destruct (readRegister (inner r) (Registers.READ_DATA + offset self))
    as [d b1].
  cbn [inner tape].
  destruct (readRegister b1 (Registers.READ_COMMAND + offset self)) as [c b2].
  exists d, c. cbn [fst snd tape]. split; [now rewrite <- app_assoc |].
  rewrite checkError_unfold. cbn [fst].
  destruct (decodedFlags c); reflexivity.
Qed.

Lemma Bounded_read : Bounded (read self) 2.
Proof.
  intros r. destruct (read_tape r) as (d & c & Htape & _).
  eexists. split; [exact Htape | cbn; lia].
Qed.

Ltac bounded_seq first :=
  eapply Bounded_bind; [ apply first | intros _ ].

Lemma Bounded_init : Bounded (init self) (4 + 3 * MAX_BUSY_ITERATIONS).
Proof.
  unfold init. eapply Bounded_le.
  - bounded_seq Bounded_barWrite. bounded_seq Bounded_waitOnBusyClear.
    bounded_seq Bounded_barWrite. bounded_seq Bounded_waitOnBusyClear.
    bounded_seq Bounded_barWrite. bounded_seq Bounded_waitOnBusyClear.
    apply Bounded_barWrite.
  - unfold MAX_BUSY_ITERATIONS. lia.
Qed.

Lemma Bounded_gpioEnable :
  Bounded (gpioEnable self) (22 + 4 * MAX_BUSY_ITERATIONS).
Proof.
  unfold gpioEnable. eapply Bounded_le.
  - bounded_seq Bounded_write. bounded_seq Bounded_read.
    bounded_seq Bounded_write. bounded_seq Bounded_read.
    bounded_seq Bounded_write.
    bounded_seq Bounded_write. bounded_seq Bounded_read.
    apply Bounded_ret.
  - unfold MAX_BUSY_ITERATIONS. lia.
Qed.

Lemma Bounded_initialize :
  Bounded (initialize self) (26 + 7 * MAX_BUSY_ITERATIONS).
Proof.
  unfold initialize. eapply Bounded_le.
  - bounded_seq Bounded_init. apply Bounded_gpioEnable.
  - unfold MAX_BUSY_ITERATIONS. lia.
Qed.

(** X7.  Whether they return or throw, the operations of the engine only
    add to the record of register accesses, and a bounded number of them:
    [gpioRead] at most 6 + 10,000, [initialize] at most 26 + 7 * 10,000 and
    [gpioWrite] at most 42 + 10 * 10,000. *)
Theorem sca_operations_bounded (data0 : Z) :
  Bounded (gpioRead self) (6 + MAX_BUSY_ITERATIONS)
  /\ Bounded (initialize self) (26 + 7 * MAX_BUSY_ITERATIONS)
  /\ Bounded (gpioWrite self data0) (42 + 10 * MAX_BUSY_ITERATIONS).
Proof.
  split; [| split].
  - unfold gpioRead. eapply Bounded_le.
    + bounded_seq Bounded_write. apply Bounded_read.
    + unfold MAX_BUSY_ITERATIONS. lia.
  - apply Bounded_initialize.
  - unfold gpioWrite. eapply Bounded_le.
    + bounded_seq Bounded_initialize.
      bounded_seq Bounded_write.
      bounded_seq Bounded_write. bounded_seq Bounded_read.
      bounded_seq Bounded_write. apply Bounded_read.
    + unfold MAX_BUSY_ITERATIONS. lia.
Qed.

End Bounds.

(** The bound of [gpioRead] is reached on a device that clears BUSY at the
    last poll of the wait. *)
Lemma sca_operations_bounded_witness :
  (exists t,
     tape (snd (gpioRead cruSca slowBar)) = tape slowBar ++ t
     /\ Z.of_nat (List.length t) <= 6 + MAX_BUSY_ITERATIONS)
  /\ Z.of_nat (List.length (tape (snd (gpioRead cruSca slowBar))))
     = 6 + MAX_BUSY_ITERATIONS.
Proof.
  split.
  - apply (proj1 (sca_operations_bounded cruSca 0x0) slowBar).
  - vm_compute. reflexivity.
Defined.

(** *** Where an operation stops when it throws *)

Section Failures.
Context {B : Type} {bar2 : RegisterReadWriteInterface B}.
Variable self : Sca.

Lemma ends_prefix e t1 t2 :
  endsInTimeout self e t2 \/ endsInFlagError self e t2 ->
  endsInTimeout self e (t1 ++ t2) \/ endsInFlagError self e (t1 ++ t2).
Proof.
  intros [(He & front & polls & -> & Hlen & Hall)
         | (front & d & c & -> & Hfl & He)].
  - left. split; [exact He |]. exists (t1 ++ front), polls.
    rewrite app_assoc. auto.
  - right. exists (t1 ++ front), d, c. rewrite app_assoc. auto.
Qed.

Lemma Fails_bind {A C} (m : M (Recorder B) A) (k : A -> M (Recorder B) C) n :
  Bounded m n -> Fails self m -> (forall a, Fails self (k a)) ->
  Fails self (bind m k).
Proof.
  intros Hgrow Hm Hk r e r' Hrun.
  apply bind_thrown in Hrun as [Hrun | (a & r1 & Hrun1 & Hrun2)].
  - apply (Hm _ _ _ Hrun).
  - destruct (Hgrow r) as (t1 & Htape1 & _). rewrite Hrun1 in Htape1.
    cbn [snd] in Htape1.
    destruct (Hk a _ _ _ Hrun2) as (t2 & Htape2 & Hends).
    exists (t1 ++ t2). split.
    + rewrite Htape2, Htape1. now rewrite app_assoc.
    + now apply ends_prefix.
Qed.

Lemma Fails_barWrite index value : Fails self (barWrite self index value).
Proof. intros r e r' Hrun. discriminate Hrun. Qed.

Lemma Fails_ret {A} (a : A) : Fails (B:=B) self (ret a).
Proof. intros r e r' Hrun. discriminate Hrun. Qed.

Lemma Fails_waitOnBusyClear : Fails self (waitOnBusyClear self).
Proof.
  intros r e r' Hrun. unfold waitOnBusyClear in Hrun. fold budget in Hrun.
  apply waitOnBusyClear_loop_thrown in Hrun as (-> & -> & Hall).
  exists (busyReads self (busyPolls self budget r)).
  split; [apply tape_afterPolls |].
  left. split; [reflexivity |].
  exists [], (busyPolls self budget r). repeat split; try assumption.
  rewrite busyPolls_length. apply budget_value.
Qed.

Lemma Fails_write command data : Fails self (write self command data).
Proof.
  intros r e r' Hrun. rewrite write_unfold in Hrun.
  destruct (Fails_waitOnBusyClear _ _ _ Hrun) as (t & Htape & Hends).
  exists (writeRegisters self command data ++ t). split.
  - rewrite Htape, tape_afterWriteRegisters. now rewrite <- app_assoc.
  - now apply ends_prefix.
Qed.

Lemma Fails_read : Fails self (read self).
Proof.
  intros r e r' Hrun. destruct (read_tape self r) as (d & c & Htape & Hout).
  rewrite Hrun in Htape, Hout. cbn [fst snd] in *.
  eexists. split; [exact Htape |].
  right. exists [], d, c. split; [reflexivity |].
  destruct (decodedFlags c) as [| f fs]; [discriminate Hout |].
  injection Hout as ->. split; [discriminate | reflexivity].
Qed.

Ltac fails_seq bound first :=
  eapply Fails_bind; [ apply bound | apply first | intros _ ].

Lemma Fails_init : Fails self (init self).
Proof.
  unfold init.
  fails_seq Bounded_barWrite Fails_barWrite.
  fails_seq Bounded_waitOnBusyClear Fails_waitOnBusyClear.
  fails_seq Bounded_barWrite Fails_barWrite.
  fails_seq Bounded_waitOnBusyClear Fails_waitOnBusyClear.
  fails_seq Bounded_barWrite Fails_barWrite.
  fails_seq Bounded_waitOnBusyClear Fails_waitOnBusyClear.
  apply Fails_barWrite.
Qed.

Lemma Fails_gpioEnable : Fails self (gpioEnable self).
Proof.
  unfold gpioEnable.
  fails_seq Bounded_write Fails_write. fails_seq Bounded_read Fails_read.
  fails_seq Bounded_write Fails_write. fails_seq Bounded_read Fails_read.
  fails_seq Bounded_write Fails_write.
  fails_seq Bounded_write Fails_write. fails_seq Bounded_read Fails_read.
  apply Fails_ret.
Qed.

Lemma Fails_initialize : Fails self (initialize self).
Proof.
  unfold initialize. fails_seq Bounded_init Fails_init.
  apply Fails_gpioEnable.
Qed.

(** X8.  [gpioRead], [initialize] and [gpioWrite] throw in two ways only.
    Either a wait has read BUSY 10,000 times without a zero and the error is
    the timeout; or [read] has taken a command word with an error flag set
    and the error is the one [checkError] builds for that word.  In both
    cases the reads that caused the error are the last accesses made: the
    rest of the sequence is not run. *)
Theorem sca_operations_fail_at_last_access (data0 : Z) :
  Fails self (gpioRead self)
  /\ Fails self (initialize self)
  /\ Fails self (gpioWrite self data0).
Proof.
  split; [| split].
  - unfold gpioRead. fails_seq Bounded_write Fails_write. apply Fails_read.
  - apply Fails_initialize.
  - unfold gpioWrite.
    fails_seq Bounded_initialize Fails_initialize.
    fails_seq Bounded_write Fails_write.
    fails_seq Bounded_write Fails_write. fails_seq Bounded_read Fails_read.
    fails_seq Bounded_write Fails_write. apply Fails_read.
Qed.

(** *** [Sca::gpioRead] *)

(** X9.  Whenever [gpioRead] returns, it has made one write, of the command
    word 0x02050011 with data 0, followed by one read, and nothing else (it
    does not run the initialization); the pair it returns is the one that
    read took from READ_COMMAND and READ_DATA. *)
Theorem gpioRead_steps (r : Recorder B) result r' :
  gpioRead self r = (Returned result, r') ->
  exists t,
    tape r' = tape r ++ t
    /\ steps (busyIndex self) t
       = writeSteps self 0x02050011 0x0 ++ readSteps self
    /\ lastRead self result t.
Proof.
  intros Hrun.
  assert (Hemits : Emits self (gpioRead self) (gpioReadSteps self)
                     (lastRead self)).
  { unfold gpioRead. eapply Emits_seq;
      [apply Emits_write | intros _; apply Emits_read
      | apply prefixClosed_lastRead]. }
  destruct (Hemits _ _ _ Hrun) as (t & Htape & _ & Hsteps & Hlast).
  exists t. auto.
Qed.

End Failures.

Lemma sca_operations_fail_at_last_access_witness :
  exists t,
    tape (snd (gpioRead cruSca flaggedBar)) = tape flaggedBar ++ t
    /\ (endsInTimeout cruSca
          (mkScaException
             "error code 0x18: invalid channel request, invalid length, ") t
        \/ endsInFlagError cruSca
             (mkScaException
                "error code 0x18: invalid channel request, invalid length, ")
             t).
Proof.
  apply (proj1 (sca_operations_fail_at_last_access cruSca 0x0) flaggedBar).
  vm_compute. reflexivity.
Defined.

Lemma gpioRead_steps_witness :
  exists t,
    tape (snd (gpioRead cruSca idleBar)) = tape idleBar ++ t
    /\ steps (busyIndex cruSca) t
       = writeSteps cruSca 0x02050011 0x0 ++ readSteps cruSca
    /\ lastRead cruSca (mkReadResult 0x0 0x7) t.
Proof.
  apply (gpioRead_steps cruSca idleBar (mkReadResult 0x0 0x7)
           (snd (gpioRead cruSca idleBar))).
  vm_compute. reflexivity.
Defined.

End AlfMoreFacts.

(** ** Properties of the register programs *)

Module ProgramFacts.
Import Programs.

Lemma assign_app done v x rest :
  assign (List.length done) v (done ++ x :: rest) = done ++ v :: rest.
Proof.
  induction done as [| y done IH]; cbn [List.length app assign];
    [reflexivity | now rewrite IH].
Qed.

Lemma readRange_lines_spec baseIndex n : forall k done words,
  List.length done = k -> List.length words = n ->
  readRange_lines baseIndex n (Z.of_nat k) (done ++ words)
  = map (fun kv : nat * Z =>
           (int_wrap (int_wrap (baseIndex + Z.of_nat (fst kv)) * 4), snd kv))
        (combine (seq k n) words).
Proof.
  induction n as [| n IH]; intros k done words Hdone Hwords;
    [reflexivity |].
  destruct words as [| w words]; [discriminate Hwords |]. subst k.
  cbn [readRange_lines seq combine map fst snd].
  rewrite Nat2Z.id, nth_middle.
  f_equal.
  replace (Z.of_nat (List.length done) + 1)
    with (Z.of_nat (S (List.length done))) by lia.
  change (done ++ w :: words) with (done ++ [w] ++ words).
  rewrite app_assoc. apply IH.
  - rewrite length_app. cbn. lia.
  - cbn in Hwords. lia.
Qed.

Section ReadRange.
Context {B : Type} {channel : RegisterReadWriteInterface B}.

Lemma readRange_fill_spec baseIndex n : forall k done rest (r : Recorder B),
  List.length done = k -> List.length rest = n ->
  exists words r',
    readRange_fill baseIndex n (Z.of_nat k) (done ++ rest) r
    = (done ++ words, r')
    /\ List.length words = n
    /\ tape r'
       = tape r
         ++ map (fun kv : nat * Z =>
                   EvRead (int_wrap (baseIndex + Z.of_nat (fst kv))) (snd kv))
                (combine (seq k n) words).
Proof.
  induction n as [| n IH]; intros k done rest r Hdone Hrest.
  - destruct rest; [| discriminate Hrest].
    exists [], r. cbn. rewrite !app_nil_r. auto.
  - destruct rest as [| x rest]; [discriminate Hrest |]. subst k.
    cbn [readRange_fill readRegister Recorder_bar].
    destruct (readRegister (inner r)
                (int_wrap (baseIndex + Z.of_nat (List.length done))))
      as [v b'].
    rewrite Nat2Z.id, assign_app.
    replace (Z.of_nat (List.length done) + 1)
      with (Z.of_nat (S (List.length done))) by lia.
    change (done ++ v :: rest) with (done ++ [v] ++ rest).
    rewrite app_assoc.
    destruct (IH (S (List.length done)) (done ++ [v]) rest
                (mkRecorder b'
                   (tape r
                    ++ [EvRead (int_wrap (baseIndex
                                          + Z.of_nat (List.length done))) v])))
      as (words & r' & Hrun & Hlen & Htape).
    + rewrite length_app. cbn. lia.
    + cbn in Hrest. lia.
    + exists (v :: words), r'. rewrite Hrun, <- app_assoc.
      split; [reflexivity |]. split; [cbn; lia |].
      rewrite Htape. cbn [tape seq combine map fst snd].
      now rewrite <- app_assoc.
Qed.

Lemma int_wrap_small x : isInt x -> int_wrap x = x.
Proof.
  unfold isInt, int_wrap. intros Hx. rewrite Z.mod_small by lia. lia.
Qed.

(** X10.  [ProgramRegisterReadRange::run], for an [int] base address and an
    [int] range.  For a range that is not negative it reads exactly [range]
    registers and writes none: read [k] is of the word index [baseAddress /
    4 + k] as an [int], in ascending [k]; the words it puts out are the
    words read, in that order, and on the console each is shown against four
    times its index as an [int].  For a negative range it throws before it
    touches any register.  As long as four times the index after the last
    one does not exceed 2^31, no [int] wraps: the indices are [baseAddress /
    4 + k] and the addresses shown four times that, which is the base
    address rounded to a word, not the address given. *)
Theorem readRange_reads_consecutive_registers (baseAddress range : Z)
  (mFile : string) (r : Recorder B) :
  isInt baseAddress ->
  isInt range ->
  (0 <= range ->
   exists words r',
     List.length words = Z.to_nat range
     /\ tape r'
        = tape r
          ++ map (rangeRead baseAddress)
                 (combine (seq 0 (Z.to_nat range)) words)
     /\ ProgramRegisterReadRange_run baseAddress range mFile r
        = (Returned
             (if (mFile =? "")%string
              then ConsoleLines
                     (map (rangeLine baseAddress)
                        (combine (seq 0 (Z.to_nat range)) words))
              else FileWords mFile words),
           r'))
  /\ (range < 0 ->
      ProgramRegisterReadRange_run baseAddress range mFile r
      = (Thrown vector_length_error, r))
  /\ ((Z.quot baseAddress 4 + range) * 4 <= 2 ^ 31 ->
      forall k v,
        (k < Z.to_nat range)%nat ->
        rangeRead baseAddress (k, v)
        = EvRead (Z.quot baseAddress 4 + Z.of_nat k) v
        /\ rangeLine baseAddress (k, v)
           = ((Z.quot baseAddress 4 + Z.of_nat k) * 4, v)).
Proof.
  intros Hbase Hint. unfold ProgramRegisterReadRange_run.
  split; [| split].
  - intros Hrange. destruct (Z.ltb_spec range 0) as [Hneg | _]; [lia |].
    destruct (readRange_fill_spec (Z.quot baseAddress 4) (Z.to_nat range)
                0%nat [] (repeat 0 (Z.to_nat range)) r eq_refl
                (repeat_length _ _))
      as (words & r' & Hrun & Hlen & Htape).
    cbn [app Z.of_nat] in Hrun. rewrite Hrun.
    exists words, r'. split; [exact Hlen |]. split; [exact Htape |].
    destruct (mFile =? "")%string; [| reflexivity].
    pose proof (readRange_lines_spec (Z.quot baseAddress 4) (Z.to_nat range)
                  0%nat [] words eq_refl Hlen) as Hlines.
    cbn [app Z.of_nat] in Hlines. rewrite Hlines. reflexivity.
  - intros Hneg. destruct (Z.ltb_spec range 0) as [_ | Hpos]; [reflexivity | lia].
  - intros Hfit k v Hk. unfold rangeRead, rangeLine. cbn [fst snd].
    assert (Hlow : baseAddress <= Z.quot baseAddress 4 * 4
                   \/ 0 <= Z.quot baseAddress 4).
    { pose proof (Z.quot_rem' baseAddress 4) as Hqr.
      destruct (Z_le_gt_dec 0 baseAddress) as [Hpos | Hnegb].
      - right. apply Z.quot_pos; lia.
      - left.
        pose proof (Z.rem_bound_pos_neg baseAddress 4 ltac:(lia) ltac:(lia)).
        lia. }
    unfold isInt in *.
    rewrite (int_wrap_small (Z.quot baseAddress 4 + Z.of_nat k))
      by (unfold isInt; lia).
    rewrite int_wrap_small by (unfold isInt; lia).
    split; reflexivity.
Qed.

(** X11.  [ProgramRegisterWrite::run] writes the value, wrapped to 32 bits,
    to the register at word index [address / 4] and, unless the read-back is
    switched off, reads that same register once; with the read-back off it
    reads nothing.  What it shows is the word read back, not the value
    given.  Two byte addresses with the same quotient by 4 cause the same
    register accesses. *)
Theorem registerWrite_accesses_one_register (address registerValue : Z)
  (readback verbose : bool) (r : Recorder B) :
  let index := Z.quot address 4 in
  let written := EvWrite index (registerValue mod 2 ^ 32) in
  (readback = false ->
   tape (snd (ProgramRegisterWrite_run address registerValue false verbose r))
   = tape r ++ [written])
  /\ (readback = true ->
      exists value,
        tape (snd (ProgramRegisterWrite_run address registerValue true
                     verbose r))
        = tape r ++ [written; EvRead index value]
        /\ fst (ProgramRegisterWrite_run address registerValue true verbose r)
           = if verbose then RegisterString address value
             else Text ("0x" ++ showHex value ++ newline)%string)
  /\ (forall address',
        Z.quot address' 4 = Z.quot address 4 ->
        snd (ProgramRegisterWrite_run address' registerValue readback
               verbose r)
        = snd (ProgramRegisterWrite_run address registerValue readback
                 verbose r))
  /\ 0 <= registerValue mod 2 ^ 32 < 2 ^ 32.
Proof.
  intros index written. unfold ProgramRegisterWrite_run. fold index.
  split; [| split; [| split]].
  - intros _. destruct verbose; reflexivity.
  - intros _. cbn [readRegister writeRegister Recorder_bar inner tape].
    destruct (readRegister (writeRegister (inner r) index
                              (registerValue mod 2 ^ 32)) index)
      as [value b2].
    exists value. destruct verbose; cbn [fst snd tape];
      (split; [now rewrite <- app_assoc | reflexivity]).
  - intros address' Hsame. rewrite Hsame. fold index.
    destruct readback; [| destruct verbose; reflexivity].
    destruct (readRegister (writeRegister r index (registerValue mod 2 ^ 32))
                index) as [value b2].
    destruct verbose; reflexivity.
  - apply Z.mod_pos_bound. lia.
Qed.

End ReadRange.

(** At base address 2147483644 the second address shown is past the
    largest [int] and wraps. *)
Lemma readRange_reads_consecutive_registers_witness :
  @ProgramRegisterReadRange_run _ (@Recorder_bar _ doublingBar)
    2147483644 2 "" (mkRecorder tt [])
  = (Returned (ConsoleLines [(2147483644, 1073741822);
                             (-2147483648, 1073741824)]),
     mkRecorder tt [EvRead 536870911 1073741822;
                    EvRead 536870912 1073741824])
  /\ exists words r',
       List.length words = Z.to_nat 2
       /\ tape r'
          = tape (mkRecorder tt [])
            ++ map (rangeRead 2147483644) (combine (seq 0 (Z.to_nat 2)) words)
       /\ @ProgramRegisterReadRange_run _ (@Recorder_bar _ doublingBar)
            2147483644 2 "" (mkRecorder tt [])
          = (Returned
               (if ("" =? "")%string
                then ConsoleLines
                       (map (rangeLine 2147483644)
                          (combine (seq 0 (Z.to_nat 2)) words))
                else FileWords "" words),
             r').
Proof.
  split; [reflexivity |].
  apply (proj1 (@readRange_reads_consecutive_registers unit doublingBar
                  2147483644 2 "" (mkRecorder tt [])
                  ltac:(unfold isInt; lia) ltac:(unfold isInt; lia))).
  lia.
Defined.

Lemma registerWrite_accesses_one_register_witness :
  tape (snd (@ProgramRegisterWrite_run _ (@Recorder_bar _ doublingBar)
               0xa (-1) false false (mkRecorder tt [])))
  = [EvWrite 2 0xffffffff].
Proof.
  apply (proj1 (@registerWrite_accesses_one_register unit doublingBar
                  0xa (-1) false false (mkRecorder tt [])) eq_refl).
Defined.

End ProgramFacts.

(** ** Whole runs of the SCA engine *)

Module AlfRunFacts.
Import Alf AlfSpec AlfMoreSpec AlfRunSpec AlfFacts AlfMoreFacts.

Lemma firstn_succ_nth_error {A} (l : list A) : forall k x,
  nth_error l k = Some x -> firstn (S k) l = firstn k l ++ [x].
Proof.
  induction l as [| y l IH]; intros [| k] x Hk; cbn in Hk; try discriminate Hk.
  - injection Hk as ->. reflexivity.
  - cbn [firstn app]. f_equal. now apply IH.
Qed.

Section Runs.
Context {B : Type} {bar2 : RegisterReadWriteInterface B}.
Variable self : Sca.

Lemma Performs_app ops1 : forall t1 ops2 t2,
  Performs self ops1 t1 -> Performs self ops2 t2 ->
  Performs self (ops1 ++ ops2) (t1 ++ t2).
Proof.
  induction ops1 as [| op ops1 IH]; intros t1 ops2 t2 H1 H2; cbn [app].
  - cbn in H1. subst t1. exact H2.
  - destruct op; cbn [Performs] in *.
    + destruct H1 as (t' & -> & H1). exists (t' ++ t2). split; [reflexivity |].
      now apply IH.
    + destruct H1 as (polls & t' & -> & Hall & Hlen & H1).
      exists polls, (t' ++ t2). rewrite <- app_assoc.
      repeat split; try assumption. now apply IH.
    + destruct H1 as (d & t' & -> & H1). exists d, (t' ++ t2).
      split; [reflexivity |]. now apply IH.
    + destruct H1 as (c & t' & -> & Hfl & H1). exists c, (t' ++ t2).
      repeat split; try assumption. now apply IH.
Qed.

Lemma Aborts_app_l ops1 : forall e t ops2,
  Aborts self ops1 e t -> Aborts self (ops1 ++ ops2) e t.
Proof.
  induction ops1 as [| op ops1 IH]; intros e t ops2 H1; cbn [app].
  - destruct H1.
  - destruct op; cbn [Aborts] in *.
    + destruct H1 as (t' & -> & H1). exists t'. split; [reflexivity |].
      now apply IH.
    + destruct H1 as [Hfull | (polls & t' & -> & Hall & Hlen & H1)].
      * left. exact Hfull.
      * right. exists polls, t'. repeat split; try assumption. now apply IH.
    + destruct H1 as (d & t' & -> & H1). exists d, t'.
      split; [reflexivity |]. now apply IH.
    + destruct H1 as (c & t' & -> & [Hflag | [Hclear H1]]).
      * exists c, t'. split; [reflexivity |]. now left.
      * exists c, t'. split; [reflexivity |]. right.
        split; [exact Hclear |]. now apply IH.
Qed.

Lemma Aborts_app_r ops1 : forall t1 ops2 e t2,
  Performs self ops1 t1 -> Aborts self ops2 e t2 ->
  Aborts self (ops1 ++ ops2) e (t1 ++ t2).
Proof.
  induction ops1 as [| op ops1 IH]; intros t1 ops2 e t2 H1 H2; cbn [app].
  - cbn in H1. subst t1. exact H2.
  - destruct op; cbn [Performs Aborts] in *.
    + destruct H1 as (t' & -> & H1). exists (t' ++ t2). split; [reflexivity |].
      now apply IH.
    + destruct H1 as (polls & t' & -> & Hall & Hlen & H1).
      right. exists polls, (t' ++ t2). rewrite <- app_assoc.
      repeat split; try assumption. now apply IH.
    + destruct H1 as (d & t' & -> & H1). exists d, (t' ++ t2).
      split; [reflexivity |]. now apply IH.
    + destruct H1 as (c & t' & -> & Hfl & H1). exists c, (t' ++ t2).
      split; [reflexivity |]. right. split; [exact Hfl |]. now apply IH.
Qed.

Lemma Runs_bind {A C} (m : M (Recorder B) A) (k : A -> M (Recorder B) C)
  ops1 ops2 :
  Runs self m ops1 -> (forall a, Runs self (k a) ops2) ->
  Runs self (bind m k) (ops1 ++ ops2).
Proof.
  intros Hm Hk r. unfold bind.
  destruct (Hm r) as (t1 & Htape1 & Hout1).
  destruct (m r) as [[a | e] r1]; cbn [fst snd] in *.
  - destruct (Hk a r1) as (t2 & Htape2 & Hout2).
    exists (t1 ++ t2). split.
    + rewrite Htape2, Htape1. now rewrite app_assoc.
    + destruct (fst (k a r1)) as [c | e].
      * now apply Performs_app.
      * now apply Aborts_app_r.
  - exists t1. split; [exact Htape1 |]. now apply Aborts_app_l.
Qed.

Lemma Runs_ret {A} (a : A) : Runs (B:=B) self (ret a) [].
Proof. intros r. exists []. cbn. now rewrite app_nil_r. Qed.

Lemma Runs_barWrite index value :
  Runs self (barWrite self index value) [OpWrite index value].
Proof.
  intros r. exists [EvWrite (index + offset self) value].
  split; [reflexivity |]. cbn. exists []. auto.
Qed.

Lemma Runs_waitOnBusyClear :
  Runs self (waitOnBusyClear self) [OpWaitNotBusy].
Proof.
  intros r. unfold waitOnBusyClear. fold budget.
  destruct (waitOnBusyClear_loop self budget r) as [[u | e] r'] eqn:Hrun;
    cbn [fst snd].
  - apply waitOnBusyClear_loop_returned in Hrun
      as (k & Hk & -> & Hzero & Hbefore).
    exists (busyReads self (busyPolls self (S k) r)).
    split; [apply tape_afterPolls |].
    cbn [Performs].
    exists (firstn k (busyPolls self budget r)), [].
    rewrite app_nil_r.
    rewrite <- (firstn_succ_nth_error _ _ _ Hzero).
    rewrite busyPolls_firstn by lia.
    repeat split; try assumption.
    rewrite length_firstn, busyPolls_length.
    pose proof budget_value. unfold MAX_BUSY_ITERATIONS. lia.
  - apply waitOnBusyClear_loop_thrown in Hrun as (-> & -> & Hall).
    exists (busyReads self (busyPolls self budget r)).
    split; [apply tape_afterPolls |].
    cbn [Aborts]. left. exists (busyPolls self budget r).
    repeat split; try assumption.
    rewrite busyPolls_length. apply budget_value.
Qed.

Lemma Runs_read : Runs self (read self) readOps.
Proof.
  intros r. destruct (read_tape self r) as (d & c & Htape & Hout).
  eexists. split; [exact Htape |]. rewrite Hout.
  unfold readOps. destruct (decodedFlags c) as [| f fs] eqn:Hfl.
  - cbn [Performs]. exists d. eexists. split; [reflexivity |].
    exists c, []. auto.
  - cbn [Aborts]. exists d. eexists. split; [reflexivity |].
    exists c, []. split; [reflexivity |]. left.
    rewrite Hfl. repeat split. discriminate.
Qed.

Ltac runs_seq first :=
  eapply Runs_bind; [ apply first | intros _ ].

Lemma Runs_write command data :
  Runs self (write self command data) (writeOps command data).
Proof.
  unfold write, executeCommand.
  change (writeOps command data)
    with ([OpWrite Registers.WRITE_DATA data]
          ++ [OpWrite Registers.WRITE_COMMAND command]
          ++ [OpWrite Registers.CONTROL 0x4]
          ++ [OpWrite Registers.CONTROL 0x0] ++ [OpWaitNotBusy]).
  runs_seq Runs_barWrite. runs_seq Runs_barWrite.
  runs_seq Runs_barWrite. runs_seq Runs_barWrite.
  apply Runs_waitOnBusyClear.
Qed.

Lemma Runs_init : Runs self (init self) initOps.
Proof.
  unfold init.
  change initOps
    with ([OpWrite Registers.CONTROL 0x1] ++ [OpWaitNotBusy]
          ++ [OpWrite Registers.CONTROL 0x2] ++ [OpWaitNotBusy]
          ++ [OpWrite Registers.CONTROL 0x1] ++ [OpWaitNotBusy]
          ++ [OpWrite Registers.CONTROL 0x0]).
  runs_seq Runs_barWrite. runs_seq Runs_waitOnBusyClear.
  runs_seq Runs_barWrite. runs_seq Runs_waitOnBusyClear.
  runs_seq Runs_barWrite. runs_seq Runs_waitOnBusyClear.
  apply Runs_barWrite.
Qed.

Lemma Runs_gpioEnable : Runs self (gpioEnable self) gpioEnableOps.
Proof.
  unfold gpioEnable, gpioEnableOps.
  runs_seq Runs_write. runs_seq Runs_read.
  runs_seq Runs_write. runs_seq Runs_read.
  runs_seq Runs_write.
  runs_seq Runs_write.
  rewrite <- (app_nil_r readOps). runs_seq Runs_read.
  apply Runs_ret.
Qed.

(** C8, amended.  From any device, what [initialize] adds to the record of
    register accesses is the following sequence, in order: CONTROL := 1,
    wait, CONTROL := 2, wait, CONTROL := 1, wait, CONTROL := 0, and then four
    writes with the literal words of the source (each one WRITE_DATA,
    WRITE_COMMAND, CONTROL := 4, CONTROL := 0, wait), the first, the second
    and the fourth followed by a read of READ_DATA and READ_COMMAND, the
    third followed directly by the fourth.  Every wait reads BUSY until it
    reads zero, within the budget of 10,000 reads.  When [initialize]
    returns, the sequence has been carried out to its end; when it throws,
    the sequence has been carried out up to a wait that used up the budget
    (the timeout) or a read that took a command word with an error flag, and
    nothing after it. *)
Theorem initialize_runs_sequence (r : Recorder B) :
  (exists t,
     tape (snd (initialize self r)) = tape r ++ t
     /\ match fst (initialize self r) with
        | Returned _ => Performs self (initOps ++ gpioEnableOps) t
        | Thrown e => Aborts self (initOps ++ gpioEnableOps) e t
        end)
  /\ initOps
     = [OpWrite Registers.CONTROL 0x1; OpWaitNotBusy;
        OpWrite Registers.CONTROL 0x2; OpWaitNotBusy;
        OpWrite Registers.CONTROL 0x1; OpWaitNotBusy;
        OpWrite Registers.CONTROL 0x0]
  /\ gpioEnableOps
     = writeOps 0x00010002 0xff000000 ++ [OpReadData; OpReadCommand]
       ++ writeOps 0x00020003 0xff000000 ++ [OpReadData; OpReadCommand]
       ++ writeOps 0x02030020 0xffffffff
       ++ writeOps 0x02040021 0x0 ++ [OpReadData; OpReadCommand]
  /\ (forall command data,
        writeOps command data
        = [OpWrite Registers.WRITE_DATA data;
           OpWrite Registers.WRITE_COMMAND command;
           OpWrite Registers.CONTROL 0x4;
           OpWrite Registers.CONTROL 0x0;
           OpWaitNotBusy]).
Proof.
  split; [| repeat split].
  assert (Hruns : Runs self (initialize self) (initOps ++ gpioEnableOps)).
  { unfold initialize. runs_seq Runs_init. apply Runs_gpioEnable. }
  apply (Hruns r).
Qed.

End Runs.

Lemma initialize_runs_sequence_witness :
  exists t,
    tape (snd (initialize cruSca idleBar)) = tape idleBar ++ t
    /\ match fst (initialize cruSca idleBar) with
       | Returned _ => Performs cruSca (initOps ++ gpioEnableOps) t
       | Thrown e => Aborts cruSca (initOps ++ gpioEnableOps) e t
       end.
Proof.
  apply (proj1 (initialize_runs_sequence cruSca idleBar)).
Defined.

End AlfRunFacts.
